(** * package-releases-job: the reconciliation pass of [app.py]

    A shallow embedding of [app.py]: the notification dispatcher
    [release_notification], the reconciliation engine
    [package_releases_update] and the command line entry point [cli].

    The program is sequential Python that talks to four collaborators (the
    package index client, the graph store, the HTTP client and the metrics
    push gateway), mutates three Prometheus gauges and raises and catches
    exceptions.  It is embedded as state passing over a state that holds
    the outside world, the gauge registry and the history of calls made so
    far, inside a small exception monad in which [except Exception] only
    catches what Python's [Exception] class covers. *)

From Stdlib Require Import String Ascii List ZArith Bool Lia RelationClasses.
Import ListNotations.
Open Scope string_scope.

Set Implicit Arguments.
Set Warnings "-register-all".

(** ** Exceptions *)

(** The exception classes the program distinguishes.  [NotFound] is
    [thoth.python.exceptions.NotFound]; [PyException cls msg] is any other
    subclass of [Exception] ([ValueError], [KeyError], [HTTPError], ...);
    [SystemExit] and [KeyboardInterrupt] derive from [BaseException] only. *)
Inductive exn : Type :=
| NotFound (msg : string)
| PyException (cls msg : string)
| SystemExit (code : Z)
| KeyboardInterrupt.

(** [isinstance(e, Exception)]: what an [except Exception] clause catches. *)
Definition is_Exception (e : exn) : bool :=
  match e with
  | NotFound _ | PyException _ _ => true
  | SystemExit _ | KeyboardInterrupt => false
  end.

Inductive result (A : Type) : Type :=
| Ok (a : A)
| Raise (e : exn).
Arguments Ok {A} a.
Arguments Raise {A} e.

Definition ValueError (msg : string) : exn := PyException "ValueError" msg.
Definition TypeError (msg : string) : exn := PyException "TypeError" msg.
Definition KeyError (msg : string) : exn := PyException "KeyError" msg.
Definition AttributeError (msg : string) : exn := PyException "AttributeError" msg.
Definition HTTPError (msg : string) : exn := PyException "HTTPError" msg.

(** ** Parsed YAML documents *)

(** What [yaml.safe_load] returns for the documents the job reads: the
    monitoring configuration and the package names file.  A mapping keeps
    its entries in document order, as a Python dict does. *)
Inductive yaml : Type :=
| YNull
| YBool (b : bool)
| YInt (z : Z)
| YStr (s : string)
| YList (l : list yaml)
| YMap (m : list (yaml * yaml)).

(** Python truthiness, for [if x], [x and y], [x or y]. *)
Definition truthy (y : yaml) : bool :=
  match y with
  | YNull => false
  | YBool b => b
  | YInt z => negb (Z.eqb z 0)
  | YStr s => negb (String.eqb s "")
  | YList l => match l with [] => false | _ => true end
  | YMap m => match m with [] => false | _ => true end
  end.

(** Truthiness of an optional string ([None] and [""] are false). *)
Definition str_truthy (o : option string) : bool :=
  match o with
  | None => false
  | Some s => negb (String.eqb s "")
  end.

(** A non-empty tuple is true whatever it holds. *)
Definition tuple_truthy {A B : Type} (p : A * B) : bool := true.

(** Truthiness of an optional list ([None] and [[]] are false). *)
Definition list_truthy {A : Type} (o : option (list A)) : bool :=
  match o with
  | Some (_ :: _) => true
  | _ => false
  end.

(** Lookup of a string key in the entries of a mapping. *)
Fixpoint dict_lookup (m : list (yaml * yaml)) (k : string) : option yaml :=
  match m with
  | [] => None
  | (YStr k', v) :: m' => if String.eqb k' k then Some v else dict_lookup m' k
  | _ :: m' => dict_lookup m' k
  end.

(** [d.get(k, default)]: only a dict has the method. *)
Definition py_get (d : yaml) (k : string) (default : yaml) : result yaml :=
  match d with
  | YMap m => Ok (match dict_lookup m k with Some v => v | None => default end)
  | _ => Raise (AttributeError "object has no attribute 'get'")
  end.

(** [d[k]] for a string key [k]. *)
Definition py_getitem (d : yaml) (k : string) : result yaml :=
  match d with
  | YMap m => match dict_lookup m k with
              | Some v => Ok v
              | None => Raise (KeyError k)
              end
  | YStr _ => Raise (TypeError "string indices must be integers")
  | YList _ => Raise (TypeError "list indices must be integers or slices, not str")
  | _ => Raise (TypeError "object is not subscriptable")
  end.

(** The one-character strings of a string, as [for c in s] yields them. *)
Fixpoint chars (s : string) : list string :=
  match s with
  | EmptyString => []
  | String c s' => String c EmptyString :: chars s'
  end.

(** [for x in y]: the items a [for] loop over [y] visits. *)
Definition py_iter (y : yaml) : result (list yaml) :=
  match y with
  | YList l => Ok l
  | YStr s => Ok (map YStr (chars s))
  | YMap m => Ok (map fst m)
  | _ => Raise (TypeError "object is not iterable")
  end.

(** [s.startswith(p)]: only a string has the method. *)
Definition py_startswith (y : yaml) (p : string) : result bool :=
  match y with
  | YStr s => Ok (String.prefix p s)
  | _ => Raise (AttributeError "object has no attribute 'startswith'")
  end.

(** ** Collaborator data *)

(** [thoth.python.Source], of which the job reads the [url]. *)
Record Source : Type := mkSource { url : string }.

(** The entity a store create returns, of which the job reads the name and
    the version. *)
Record Entity : Type := mkEntity {
  package_name : string;
  package_version : string
}.

(** The three gauges of [prometheus_registry].  The two counters only ever
    grow by [inc()] from zero, so they are natural numbers; the timer holds
    a difference of two clock readings. *)
Record Registry : Type := mkRegistry {
  packages_added : nat;
  packages_notified : nat;
  package_releases_time : Z
}.

(** ** Log records and the call history *)

Inductive level : Type := DEBUG | INFO | WARNING | ERROR.

(** One constructor per logging call site of [app.py], with the values the
    message is formatted from. *)
Inductive message : Type :=
| MsgStartup
| MsgLoadingRemoteConfig (config_path : string)
| MsgLoadingLocalConfig (config_path : string)
| MsgTriggering (name version : string)
| MsgTriggered (name version : string) (trigger_url : yaml)
| MsgTriggerFailed (name version : string) (trigger : yaml) (exc : exn)
| MsgCheckingIndex (index_url : string)
| MsgNoVersionsFound (name index_url : string) (exc : exn)
| MsgVersionsFailed (name : string) (exc : exn)
| MsgNotAdded (name version index_url : string)
| MsgNewRelease (name version index_url : string)
| MsgAlreadyPresent (name version index_url : string)
| MsgNotificationFailed (name version index_url : string) (exc : exn)
| MsgDebugModeOn
| MsgVersion
| MsgNoPackages
| MsgConfigLoadFailed (config_path : string)
| MsgSubmittingMetrics (gateway : string)
| MsgPushFailed (exc : exn).

(** What the process did, in order: every logging call and every call to a
    collaborator, with its arguments and, where a claim needs it, its
    result. *)
Inductive event : Type :=
| Log (lvl : level) (m : message)
| ReadFile (path : string)
| HttpGet (target : string)
| HttpPost (target : string) (data : list (string * string))
           (verify : option yaml) (res : result Z)
| GraphConnect
| IndexAll
| GetPackages (index_url : string)
| GetPackageVersions (index_url name : string) (res : result (list string))
| CreateEntity (name version index_url : string) (only_if_package_seen : bool)
               (res : result (option (Entity * bool)))
| NamesAll
| PushToGateway (gateway job : string) (reg : Registry).

(** ** The collaborators *)

(** The libraries [app.py] calls, over a world [W] they read and change.
    Every call may raise. *)
Record Collab (W : Type) : Type := mkCollab {
  (** [template.format( **kwargs )] *)
  str_format : string -> list (string * string) -> result string;
  (** [yaml.safe_load] *)
  yaml_safe_load : string -> result yaml;
  (** [parse(jsonpath).find(content)], giving the [value] of each match *)
  jsonpath_find : string -> yaml -> result (list yaml);
  (** [open(path, "r").read()] *)
  read_file : string -> W -> result string * W;
  (** [requests.get(url)], giving the status code and the text *)
  requests_get : string -> W -> result (Z * string) * W;
  (** [requests.post(url, data=..., **kwargs)], giving the status code *)
  requests_post : string -> list (string * string) -> option yaml -> W -> result Z * W;
  (** [GraphDatabase()] and [graph.connect()] *)
  graph_connect : W -> result unit * W;
  (** [Source( **config )] for each config of
      [graph.get_python_package_index_all(enabled=True)] *)
  get_python_package_index_all : W -> result (list Source) * W;
  (** [package_index.get_packages()] *)
  get_packages : Source -> W -> result (list string) * W;
  (** [package_index.get_package_versions(package_name)] *)
  get_package_versions : Source -> string -> W -> result (list string) * W;
  (** [graph.create_python_package_version_entity(name, version, index_url,
      only_if_package_seen=...)] *)
  create_python_package_version_entity :
    string -> string -> string -> bool -> W -> result (option (Entity * bool)) * W;
  (** [graph.get_python_package_version_entities_names_all()] *)
  get_python_package_version_entities_names_all : W -> result (list string) * W;
  (** [push_to_gateway(url, job=..., registry=...)] *)
  push_to_gateway : string -> string -> Registry -> W -> result unit * W;
  (** [timeit.default_timer()], which [Gauge.time()] reads *)
  default_timer : W -> Z * W
}.

(** ** The process state and its monad *)

Record state (W : Type) : Type := mkState {
  world : W;
  registry : Registry;
  debug_enabled : bool;
  trace : list event
}.

Definition M (W A : Type) : Type := state W -> result A * state W.

Definition ret {W A : Type} (a : A) : M W A := fun s => (Ok a, s).

Definition bind {W A B : Type} (m : M W A) (k : A -> M W B) : M W B :=
  fun s => match m s with
           | (Ok a, s') => k a s'
           | (Raise e, s') => (Raise e, s')
           end.

Definition raise {W A : Type} (e : exn) : M W A := fun s => (Raise e, s).

(** Lift a pure computation that may raise. *)
Definition lift {W A : Type} (r : result A) : M W A := fun s => (r, s).

(** [try: m except Exception as exc: h exc] *)
Definition try_except {W A : Type} (m : M W A) (h : exn -> M W A) : M W A :=
  fun s => match m s with
           | (Ok a, s') => (Ok a, s')
           | (Raise e, s') => if is_Exception e then h e s' else (Raise e, s')
           end.

(** [try: m finally: f]: [f] runs either way; what [f] raises replaces the
    outcome of [m]. *)
Definition try_finally {W A : Type} (m : M W A) (f : M W unit) : M W A :=
  fun s => match m s with
           | (r, s') => match f s' with
                        | (Ok _, s'') => (r, s'')
                        | (Raise e, s'') => (Raise e, s'')
                        end
           end.

Declare Scope py_scope.
Delimit Scope py_scope with py.
Notation "x <- m ;; k" := (bind m (fun x => k))
  (at level 61, m at next level, right associativity) : py_scope.
Notation "m ;; k" := (bind m (fun _ => k))
  (at level 61, right associativity) : py_scope.
Open Scope py_scope.

(** [for x in l: body x] *)
Fixpoint foreach {W A : Type} (l : list A) (body : A -> M W unit) : M W unit :=
  match l with
  | [] => ret tt
  | x :: l' => body x ;; foreach l' body
  end.

(** Append one record to the history. *)
Definition emit {W : Type} (ev : event) : M W unit :=
  fun s => (Ok tt, mkState (world s) (registry s) (debug_enabled s) (trace s ++ [ev])).

Definition log {W : Type} (lvl : level) (m : message) : M W unit := emit (Log lvl m).

(** Call a collaborator: run it on the world and record the call. *)
Definition extern {W A : Type} (op : W -> result A * W) (ev : result A -> event) : M W A :=
  fun s => match op (world s) with
           | (r, w') => (r, mkState w' (registry s) (debug_enabled s) (trace s ++ [ev r]))
           end.

Definition update_registry {W : Type} (f : Registry -> Registry) : M W unit :=
  fun s => (Ok tt, mkState (world s) (f (registry s)) (debug_enabled s) (trace s)).

(** The registry as it stands, for [push_to_gateway(..., registry=...)]. *)
Definition get_registry {W : Type} : M W Registry := fun s => (Ok (registry s), s).

(** [_METRIC_PACKAGES_NEW_AND_ADDED.inc()] *)
Definition inc_added {W : Type} : M W unit :=
  update_registry (fun r => mkRegistry (S (packages_added r)) (packages_notified r)
                                       (package_releases_time r)).

(** [_METRIC_PACKAGES_NEW_AND_NOTIFIED.inc()] *)
Definition inc_notified {W : Type} : M W unit :=
  update_registry (fun r => mkRegistry (packages_added r) (S (packages_notified r))
                                       (package_releases_time r)).

Definition set_time {W : Type} (d : Z) : M W unit :=
  update_registry (fun r => mkRegistry (packages_added r) (packages_notified r) d).

(** [_LOGGER.setLevel(logging.DEBUG)] *)
Definition set_debug {W : Type} : M W unit :=
  fun s => (Ok tt, mkState (world s) (registry s) true (trace s)).

(** ** Module globals *)

(** [os.environ] and the two values the module reads from it when it is
    imported. *)
Record Globals : Type := mkGlobals {
  environ : list (string * string);
  _THOTH_METRICS_PUSHGATEWAY_URL : option string;
  _THOTH_DEPLOYMENT_NAME : string
}.

(** [os.getenv(k)] *)
Fixpoint getenv (env : list (string * string)) (k : string) : option string :=
  match env with
  | [] => None
  | (k', v) :: env' => if String.eqb k' k then Some v else getenv env' k
  end.

(** The module level assignments: [os.environ["THOTH_DEPLOYMENT_NAME"]]
    raises [KeyError] when the variable is not set. *)
Definition load_module (env : list (string * string)) : result Globals :=
  match getenv env "THOTH_DEPLOYMENT_NAME" with
  | None => Raise (KeyError "THOTH_DEPLOYMENT_NAME")
  | Some d => Ok (mkGlobals env (getenv env "PROMETHEUS_PUSHGATEWAY_URL") d)
  end.

(** The four keyword arguments [release_notification] adds to the
    environment when it expands a URL, which are also the posted data. *)
Definition notification_data (g : Globals) (name version index_url : string)
  : list (string * string) :=
  [ ("package_name", name);
    ("package_version", version);
    ("index_url", index_url);
    ("thoth_deployment_name", _THOTH_DEPLOYMENT_NAME g) ].

Definition has_key (env : list (string * string)) (k : string) : bool :=
  match getenv env k with Some _ => true | None => false end.

(** [template.format( **os.environ, package_name=..., ...)]: a keyword
    given twice is a [TypeError] before [format] runs. *)
Definition expand_url {W : Type} (C : Collab W) (g : Globals) (template : string)
    (name version index_url : string) : result string :=
  let data := notification_data g name version index_url in
  if existsb (fun kv => has_key (environ g) (fst kv)) data
  then Raise (TypeError "got multiple values for keyword argument")
  else str_format C template (environ g ++ data).

(** [response.raise_for_status()] *)
Definition raise_for_status (status : Z) : result unit :=
  if (400 <=? status)%Z && (status <? 600)%Z
  then Raise (HTTPError "error response")
  else Ok tt.

Section Program.

Context {W : Type} (C : Collab W) (g : Globals).

(** *** [_load_package_monitoring_config] *)

Definition _load_package_monitoring_config (config_path : string) : M W yaml :=
  if negb (str_truthy (Some config_path)) then ret YNull
  else
    content_info <-
      (if String.prefix "https://" config_path || String.prefix "http://" config_path
       then
         log DEBUG (MsgLoadingRemoteConfig config_path) ;;
         content <- extern (requests_get C config_path) (fun _ => HttpGet config_path) ;;
         lift (raise_for_status (fst content)) ;;
         ret (snd content)
       else
         log DEBUG (MsgLoadingLocalConfig config_path) ;;
         extern (read_file C config_path) (fun _ => ReadFile config_path)) ;;
    lift (yaml_safe_load C content_info).

(** *** [release_notification] *)

(** The body of the [try] for one trigger. *)
Definition deliver (trigger : yaml) (name version index_url : string) : M W unit :=
  trigger_url <- lift (py_getitem trigger "url") ;;
  https <- lift (py_startswith trigger_url "https://") ;;
  kwargs <- (if (https : bool)
             then v <- lift (py_get trigger "tls_verify" (YBool true)) ;; ret (Some v)
             else ret None) ;;
  target <- lift (match trigger_url with
                  | YStr template => expand_url C g template name version index_url
                  | _ => Raise (AttributeError "object has no attribute 'format'")
                  end) ;;
  let data := notification_data g name version index_url in
  status <- extern (requests_post C target data kwargs) (HttpPost target data kwargs) ;;
  lift (raise_for_status status).

(** One round of the [for trigger in ...] loop, threading [was_triggered]. *)
Definition notify_trigger (name version index_url : string)
    (was_triggered : bool) (trigger : yaml) : M W bool :=
  log DEBUG (MsgTriggering name version) ;;
  try_except
    (deliver trigger name version index_url ;;
     trigger_url <- lift (py_getitem trigger "url") ;;
     log INFO (MsgTriggered name version trigger_url) ;;
     ret true)
    (fun exc =>
       log ERROR (MsgTriggerFailed name version trigger exc) ;;
       ret was_triggered).

Fixpoint notify_triggers (name version index_url : string)
    (was_triggered : bool) (triggers : list yaml) : M W bool :=
  match triggers with
  | [] => ret was_triggered
  | trigger :: rest =>
      b <- notify_trigger name version index_url was_triggered trigger ;;
      notify_triggers name version index_url b rest
  end.

(** [monitored_packages.get(package_name, {}).get("triggers") or []], as
    the list the loop visits. *)
Definition triggers_of (monitored_packages : yaml) (name : string) : result (list yaml) :=
  match py_get monitored_packages name (YMap []) with
  | Raise e => Raise e
  | Ok entry =>
      match py_get entry "triggers" YNull with
      | Raise e => Raise e
      | Ok t => if truthy t then py_iter t else Ok []
      end
  end.

Definition release_notification (monitored_packages : yaml)
    (name version index_url : string) : M W bool :=
  triggers <- lift (triggers_of monitored_packages name) ;;
  notify_triggers name version index_url false triggers.

(** *** [package_releases_update] *)

(** The block under [if added and monitored_packages:]. *)
Definition notify (monitored_packages : yaml) (package_index : Source)
    (name version : string) (added : Entity * bool) : M W unit :=
  if tuple_truthy added && truthy monitored_packages
  then
    let entity := fst added in
    try_except
      (release_notification monitored_packages (package_name entity)
                            (package_version entity) (url package_index) ;;
       inc_notified)
      (fun exc =>
         log ERROR (MsgNotificationFailed name version (url package_index) exc))
  else ret tt.

(** The body of [for package_version in package_versions]. *)
Definition check_version (monitored_packages : yaml) (only_if_package_seen : bool)
    (package_index : Source) (name version : string) : M W unit :=
  added <- extern
             (create_python_package_version_entity C name version (url package_index)
                                                   only_if_package_seen)
             (CreateEntity name version (url package_index) only_if_package_seen) ;;
  match added with
  | None => log DEBUG (MsgNotAdded name version (url package_index))
  | Some added =>
      let existed := snd added in
      (if negb existed
       then log INFO (MsgNewRelease name version (url package_index)) ;; inc_added
       else log DEBUG (MsgAlreadyPresent name version (url package_index))) ;;
      notify monitored_packages package_index name version added
  end.

(** The body of [for package_name in ...]. *)
Definition check_package (monitored_packages : yaml) (only_if_package_seen : bool)
    (package_index : Source) (name : string) : M W unit :=
  r <- try_except
         (package_versions <-
            extern (get_package_versions C package_index name)
                   (GetPackageVersions (url package_index) name) ;;
          ret (Some package_versions))
         (fun exc =>
            match exc with
            | NotFound _ =>
                log DEBUG (MsgNoVersionsFound name (url package_index) exc) ;; ret None
            | _ =>
                log ERROR (MsgVersionsFailed name exc) ;; ret None
            end) ;;
  match r with
  | None => ret tt
  | Some package_versions =>
      foreach package_versions
              (check_version monitored_packages only_if_package_seen package_index name)
  end.

(** [package_names or package_index.get_packages()] *)
Definition candidates (package_names : option (list string)) (package_index : Source)
  : M W (list string) :=
  match package_names with
  | Some (n :: l) => ret (n :: l)
  | _ => extern (get_packages C package_index) (fun _ => GetPackages (url package_index))
  end.

(** The body of [for package_index in sources]. *)
Definition check_index (monitored_packages : yaml) (package_names : option (list string))
    (only_if_package_seen : bool) (package_index : Source) : M W unit :=
  log INFO (MsgCheckingIndex (url package_index)) ;;
  names <- candidates package_names package_index ;;
  foreach names (check_package monitored_packages only_if_package_seen package_index).

Definition package_releases_update (monitored_packages : yaml)
    (package_names : option (list string)) (only_if_package_seen : bool) : M W unit :=
  sources <- extern (get_python_package_index_all C) (fun _ => IndexAll) ;;
  foreach sources (check_index monitored_packages package_names only_if_package_seen).

(** *** [cli] *)

Record Args : Type := mkArgs {
  verbose : bool;
  monitoring_config : option string;
  only_if_package_seen : bool;
  package_names_file : option string;
  package_names_file_jsonpath : option string
}.

(** The inner loop of the names file: [for entry in item.value]. *)
Fixpoint collect_entries (entries : list yaml) (acc : list string) : result (list string) :=
  match entries with
  | [] => Ok acc
  | YStr entry :: rest => collect_entries rest (acc ++ [entry])
  | _ :: _ => Raise (ValueError "Found item in the file is not a string describing package name")
  end.

(** The outer loop: [for item in parse(jsonpath).find(content)]. *)
Fixpoint collect_items (items : list yaml) (acc : list string) : result (list string) :=
  match items with
  | [] => Ok acc
  | item :: rest =>
      match py_iter item with
      | Raise e => Raise e
      | Ok entries =>
          match collect_entries entries acc with
          | Raise e => Raise e
          | Ok acc' => collect_items rest acc'
          end
      end
  end.

(** The block under [if package_names_file:], up to the emptiness test. *)
Definition read_package_names (file : string) (jsonpath : option string)
  : M W (list string) :=
  text <- extern (read_file C file) (fun _ => ReadFile file) ;;
  content <- lift (yaml_safe_load C text) ;;
  items <- lift (match jsonpath with
                 | Some expr => jsonpath_find C expr content
                 | None => Raise (TypeError "expected string")
                 end) ;;
  lift (collect_items items []).

(** [default_timer()] *)
Definition now : M W Z :=
  fun s => let (t, w') := default_timer C (world s) in
           (Ok t, mkState w' (registry s) (debug_enabled s) (trace s)).

(** [with _METRIC_PACKAGES_RELEASES_TIME.time(): body]: the gauge is set on
    the way out, whether [body] returned or raised. *)
Definition timed {A : Type} (body : M W A) : M W A :=
  start <- now ;;
  try_finally body (stop <- now ;; set_time (Z.max (stop - start) 0)).

(** The [finally] block of [cli]. *)
Definition push_metrics : M W unit :=
  match _THOTH_METRICS_PUSHGATEWAY_URL g with
  | Some gateway =>
      if str_truthy (Some gateway)
      then
        try_except
          (log INFO (MsgSubmittingMetrics gateway) ;;
           reg <- get_registry ;;
           extern (push_to_gateway C gateway "package-release" reg)
                  (fun _ => PushToGateway gateway "package-release" reg))
          (fun exc => log ERROR (MsgPushFailed exc))
      else ret tt
  | None => ret tt
  end.

(** The last statement of [cli]: the timed pass and the push that follows. *)
Definition run_pass (monitored_packages : yaml) (package_names : option (list string))
  : M W unit :=
  try_finally
    (timed (package_releases_update monitored_packages package_names false))
    push_metrics.

(** Everything [cli] does before the pass: the checks of the arguments,
    the names file, the connection, the catalogue and the monitoring
    configuration.  It returns [monitored_packages] and [package_names].
    (Setting [ctx.auto_envvar_prefix] changes nothing the body reads.) *)
Definition prepare (a : Args) : M W (yaml * option (list string)) :=
  (if verbose a then set_debug else ret tt) ;;
  log DEBUG MsgDebugModeOn ;;
  log INFO MsgVersion ;;
  if str_truthy (package_names_file_jsonpath a) && negb (str_truthy (package_names_file a))
  then raise (ValueError "Cannot use JSON path when no package names file provided")
  else
  if negb (str_truthy (package_names_file_jsonpath a)) && str_truthy (package_names_file a)
  then raise (ValueError "JSON path required when obtaining package names from a JSON file")
  else
  if only_if_package_seen a && str_truthy (package_names_file a)
  then raise (ValueError "Only one of --package-names-file and --only-if-packages-seen is allowed method for describing packages to be checked")
  else
    package_names <-
      (match package_names_file a with
       | Some file =>
           if str_truthy (Some file)
           then
             names <- read_package_names file (package_names_file_jsonpath a) ;;
             match names with
             | [] => log WARNING MsgNoPackages ;; raise (SystemExit 2)
             | _ => ret (Some names)
             end
           else ret None
       | None => ret None
       end) ;;
    extern (graph_connect C) (fun _ => GraphConnect) ;;
    package_names <-
      (if only_if_package_seen a
       then
         names <- extern (get_python_package_version_entities_names_all C)
                         (fun _ => NamesAll) ;;
         ret (Some names)
       else ret package_names) ;;
    monitored_packages <-
      (match monitoring_config a with
       | Some path =>
           if str_truthy (Some path)
           then
             try_except
               (_load_package_monitoring_config path)
               (fun exc => log ERROR (MsgConfigLoadFailed path) ;; raise exc)
           else ret YNull
       | None => ret YNull
       end) ;;
    ret (monitored_packages, package_names).

Definition cli (a : Args) : M W unit :=
  p <- prepare a ;;
  run_pass (fst p) (snd p).

End Program.

(** The state a process starts in: gauges at zero, an empty history. *)
Definition initial_state {W : Type} (w : W) : state W :=
  mkState w (mkRegistry 0 0 0) false [].

(** The script: import the module, then run the command. *)
Definition main {W : Type} (C : Collab W) (env : list (string * string)) (a : Args)
  : M W unit :=
  log INFO MsgStartup ;;
  match load_module env with
  | Raise e => raise e
  | Ok g => cli C g a
  end.

(** The status the process exits with: [sys.exit(n)] gives [n], an
    exception that reaches the top gives 1, a normal return gives 0. *)
Definition exit_status {A : Type} (r : result A) : Z :=
  match r with
  | Ok _ => 0
  | Raise (SystemExit code) => code
  | Raise _ => 1
  end.

(** ** A concrete world *)

(** A small, executable instance of the collaborators, on which the program
    can be run: a catalogue of what the indices host, a store that holds
    tuples, a web hook that answers every POST with one status code, and a
    push gateway that is up or down. *)
Module Sim.

(** [str.format] with keyword arguments, for templates made of literal
    text, doubled braces and plain [{name}] fields.  Conversions, format
    specifications, attribute and index access are not modelled: a field
    that uses one is reported as [NotImplementedError]. *)
Definition is_digit (c : ascii) : bool :=
  (48 <=? nat_of_ascii c)%nat && (nat_of_ascii c <=? 57)%nat.

Fixpoint all_digits (s : string) : bool :=
  match s with
  | EmptyString => true
  | String c s' => is_digit c && all_digits s'
  end.

Definition field_value (kwargs : list (string * string)) (name : string) : result string :=
  if all_digits name
  then Raise (PyException "IndexError" "Replacement index out of range for positional args tuple")
  else match getenv kwargs name with
       | Some v => Ok v
       | None => Raise (KeyError name)
       end.

Definition prepend (c : ascii) (r : result string) : result string :=
  match r with
  | Ok s => Ok (String c s)
  | Raise e => Raise e
  end.

Definition append_result (v : result string) (r : result string) : result string :=
  match v, r with
  | Ok a, Ok b => Ok (a ++ b)
  | Raise e, _ => Raise e
  | Ok _, Raise e => Raise e
  end.

Fixpoint format_from (kwargs : list (string * string)) (field : option string)
    (s : string) : result string :=
  match field with
  | None =>
      match s with
      | EmptyString => Ok ""
      | String "{" (String "{" rest) => prepend "{" (format_from kwargs None rest)
      | String "{" rest => format_from kwargs (Some "") rest
      | String "}" (String "}" rest) => prepend "}" (format_from kwargs None rest)
      | String "}" _ => Raise (ValueError "Single '}' encountered in format string")
      | String c rest => prepend c (format_from kwargs None rest)
      end
  | Some name =>
      match s with
      | EmptyString => Raise (ValueError "expected '}' before end of string")
      | String "}" rest =>
          append_result (field_value kwargs name) (format_from kwargs None rest)
      | String "{" _ => Raise (ValueError "unexpected '{' in field name")
      | String c rest =>
          if existsb (Ascii.eqb c) ["."; "["; "!"; ":"]%char
          then Raise (PyException "NotImplementedError" "field not modelled")
          else format_from kwargs (Some (name ++ String c "")) rest
      end
  end.

Definition py_format (template : string) (kwargs : list (string * string)) : result string :=
  format_from kwargs None template.

(** What the indices host: for each index url, the packages with their
    versions.  It does not change while the job runs. *)
Definition Catalog : Type := list (string * list (string * list string)).

Record World : Type := mkWorld {
  (** the (name, version, index_url) tuples the store holds *)
  store : list (string * string * string);
  (** the files on disk, by path *)
  files : list (string * string);
  (** the status code every POST is answered with *)
  hook_status : Z;
  (** whether the push gateway accepts a push *)
  gateway_up : bool;
  (** the clock *)
  clock : Z
}.

Definition tuple_eqb (a b : string * string * string) : bool :=
  match a, b with
  | (n1, v1, u1), (n2, v2, u2) => String.eqb n1 n2 && String.eqb v1 v2 && String.eqb u1 u2
  end.

Definition holds (w : World) (t : string * string * string) : bool :=
  existsb (tuple_eqb t) (store w).

Definition seen (w : World) (name : string) : bool :=
  existsb (fun t => String.eqb (fst (fst t)) name) (store w).

Fixpoint assoc {A : Type} (l : list (string * A)) (k : string) : option A :=
  match l with
  | [] => None
  | (k', v) :: l' => if String.eqb k' k then Some v else assoc l' k
  end.

Fixpoint dedup (l : list string) : list string :=
  match l with
  | [] => []
  | x :: l' => if existsb (String.eqb x) l' then dedup l' else x :: dedup l'
  end.

Definition with_store (w : World) (st : list (string * string * string)) : World :=
  mkWorld st (files w) (hook_status w) (gateway_up w) (clock w).

Definition sim_create (name version index_url : string) (only_if_seen : bool) (w : World)
  : result (option (Entity * bool)) * World :=
  if holds w (name, version, index_url)
  then (Ok (Some (mkEntity name version, true)), w)
  else if only_if_seen && negb (seen w name)
       then (Ok None, w)
       else (Ok (Some (mkEntity name version, false)),
             with_store w (store w ++ [(name, version, index_url)])).

Definition catalog_sources (indices : Catalog) : result (list Source) :=
  Ok (map (fun p => mkSource (fst p)) indices).

Definition catalog_versions (indices : Catalog) (src : Source) (name : string)
  : result (list string) :=
  match assoc indices (url src) with
  | Some pkgs =>
      match assoc pkgs name with
      | Some versions => Ok versions
      | None => Raise (NotFound name)
      end
  | None => Raise (PyException "ConnectionError" (url src))
  end.

Definition catalog_packages (indices : Catalog) (src : Source) : result (list string) :=
  match assoc indices (url src) with
  | Some pkgs => Ok (map fst pkgs)
  | None => Raise (PyException "ConnectionError" (url src))
  end.

(** The two documents and the two expressions the examples read. *)
Definition sim_yaml (text : string) : result yaml :=
  if String.eqb text "packages: [widget]"
  then Ok (YMap [(YStr "packages", YList [YStr "widget"])])
  else if String.eqb text "packages: []"
  then Ok (YMap [(YStr "packages", YList [])])
  else Raise (PyException "YAMLError" text).

Definition sim_jsonpath (expr : string) (content : yaml) : result (list yaml) :=
  if String.eqb expr "$.packages"
  then match content with
       | YMap m => match dict_lookup m "packages" with
                   | Some v => Ok [v]
                   | None => Ok []
                   end
       | _ => Ok []
       end
  else Raise (PyException "JsonPathParserError" expr).

Definition collab (indices : Catalog) : Collab World :=
  mkCollab
    py_format
    sim_yaml
    sim_jsonpath
    (fun path w => match assoc (files w) path with
                   | Some text => (Ok text, w)
                   | None => (Raise (PyException "FileNotFoundError" path), w)
                   end)
    (fun target w => (Raise (PyException "ConnectionError" target), w))
    (fun target data verify w => (Ok (hook_status w), w))
    (fun w => (Ok tt, w))
    (fun w => (catalog_sources indices, w))
    (fun src w => (catalog_packages indices src, w))
    (fun src name w => (catalog_versions indices src name, w))
    sim_create
    (fun w => (Ok (dedup (map (fun t => fst (fst t)) (store w))), w))
    (fun gateway job reg w =>
       if gateway_up w then (Ok tt, w) else (Raise (PyException "URLError" gateway), w))
    (fun w => (clock w,
               mkWorld (store w) (files w) (hook_status w) (gateway_up w) (clock w + 1))).

(** Index A hosts package widget in versions 1.0 and 1.1. *)
Definition index_A : string := "https://pypi.org/simple".

Definition catalog_A : Catalog := [(index_A, [("widget", ["1.0"; "1.1"])])].

Definition widget_world (st : list (string * string * string)) (status : Z) : World :=
  mkWorld st
          [("names.yaml", "packages: [widget]"); ("empty.yaml", "packages: []")]
          status true 0.

(** A monitoring configuration with one trigger for widget. *)
Definition widget_config (template : string) : yaml :=
  YMap [(YStr "widget",
         YMap [(YStr "triggers", YList [YMap [(YStr "url", YStr template)]])])].

Definition globals : Globals :=
  mkGlobals [("THOTH_DEPLOYMENT_NAME", "test")] None "test".

End Sim.

(** ** What a run is measured by *)

Unset Implicit Arguments.
Open Scope list_scope.

(** A store create that reported a tuple it did not hold before:
    [existed_before = false]. *)
Definition is_new (ev : event) : bool :=
  match ev with
  | CreateEntity _ _ _ _ (Ok (Some (_, false))) => true
  | _ => false
  end.

Definition is_post (ev : event) : bool :=
  match ev with
  | HttpPost _ _ _ _ => true
  | _ => false
  end.

Definition is_push (ev : event) : bool :=
  match ev with
  | PushToGateway _ _ _ => true
  | _ => false
  end.

Definition count (f : event -> bool) (evs : list event) : nat := length (filter f evs).

(** [since P s0 s]: from [s0] to [s] the history only grew, by records that
    satisfy [P], and the "added" gauge grew by the number of creates among
    them that reported a new tuple. *)
Definition since {W : Type} (P : event -> Prop) (s0 s : state W) : Prop :=
  exists evs,
    trace s = trace s0 ++ evs /\
    Forall P evs /\
    packages_added (registry s) = packages_added (registry s0) + count is_new evs.

(** [keeps R m]: whatever the outcome, running [m] takes a state to one
    that is [R]-related to it. *)
Definition keeps {W A : Type} (R : state W -> state W -> Prop) (m : M W A) : Prop :=
  forall s, R s (snd (m s)).

Definition emits {W A : Type} (P : event -> Prop) (m : M W A) : Prop :=
  keeps (since P) m.

(** The records of the notification dispatcher. *)
Definition dispatch_event (ev : event) : bool :=
  match ev with
  | Log DEBUG (MsgTriggering _ _) => true
  | Log INFO (MsgTriggered _ _ _) => true
  | Log ERROR (MsgTriggerFailed _ _ _ _) => true
  | HttpPost _ _ _ _ => true
  | _ => false
  end.

(** The records of one round of the version loop, the sentinel branch
    left out. *)
Definition version_event (ois : bool) (ev : event) : bool :=
  match ev with
  | CreateEntity _ _ _ o _ => Bool.eqb o ois
  | Log INFO (MsgNewRelease _ _ _) => true
  | Log DEBUG (MsgAlreadyPresent _ _ _) => true
  | Log ERROR (MsgNotificationFailed _ _ _ _) => true
  | _ => dispatch_event ev
  end.

(** The record of the sentinel branch. *)
Definition sentinel_event (ev : event) : bool :=
  match ev with
  | Log DEBUG (MsgNotAdded _ _ _) => true
  | _ => false
  end.

(** The records of the loops around the version loop. *)
Definition walk_event (ev : event) : bool :=
  match ev with
  | IndexAll => true
  | GetPackages _ => true
  | GetPackageVersions _ _ _ => true
  | Log INFO (MsgCheckingIndex _) => true
  | Log DEBUG (MsgNoVersionsFound _ _ _) => true
  | Log ERROR (MsgVersionsFailed _ _) => true
  | _ => false
  end.

(** Every record [package_releases_update] can leave. *)
Definition engine_event (ois : bool) (ev : event) : bool :=
  version_event ois ev || sentinel_event ev || walk_event ev.

(** The records of [cli] around the pass. *)
Definition setup_event (ev : event) : bool :=
  match ev with
  | Log DEBUG MsgDebugModeOn => true
  | Log INFO MsgVersion => true
  | Log WARNING MsgNoPackages => true
  | Log DEBUG (MsgLoadingRemoteConfig _) => true
  | Log DEBUG (MsgLoadingLocalConfig _) => true
  | Log ERROR (MsgConfigLoadFailed _) => true
  | Log INFO (MsgSubmittingMetrics _) => true
  | Log ERROR (MsgPushFailed _) => true
  | ReadFile _ => true
  | HttpGet _ => true
  | GraphConnect => true
  | NamesAll => true
  | PushToGateway _ _ _ => true
  | _ => false
  end.

(** Records that touch neither an index, nor the store, nor the network. *)
Definition local_event (ev : event) : bool :=
  match ev with
  | Log _ _ => true
  | ReadFile _ => true
  | _ => false
  end.

(** The store's contract for the sentinel: it is an answer to a create
    that asked for [only_if_package_seen] only. *)
Definition sentinel_only_if_asked {W : Type} (C : Collab W) : Prop :=
  forall name version index_url w,
    fst (create_python_package_version_entity C name version index_url false w)
      <> Ok None.

(** The names file resolves to an empty list of package names: it can be
    read and parsed, the expression matches, and no entry comes out. *)
Definition resolves_empty {W : Type} (C : Collab W) (file : string)
    (jsonpath : option string) (w : W) : Prop :=
  exists expr text content items,
    jsonpath = Some expr /\
    fst (read_file C file w) = Ok text /\
    yaml_safe_load C text = Ok content /\
    jsonpath_find C expr content = Ok items /\
    collect_items items [] = Ok [].

(** The configuration errors of the command line: both selection modes
    at once, an expression without a file, a file without an expression,
    a names file that yields no name. *)
Definition config_error {W : Type} (C : Collab W) (a : Args) (w : W) : Prop :=
  (only_if_package_seen a = true /\ str_truthy (package_names_file a) = true) \/
  (str_truthy (package_names_file_jsonpath a) = true /\
   str_truthy (package_names_file a) = false) \/
  (str_truthy (package_names_file a) = true /\
   str_truthy (package_names_file_jsonpath a) = false) \/
  (exists file,
      package_names_file a = Some file /\ str_truthy (Some file) = true /\
      resolves_empty C file (package_names_file_jsonpath a) w).

(** The record a failed version listing leaves: debug level when the
    package is not on the index, error level ([_LOGGER.exception]) for any
    other failure. *)
Definition skip_record (idx : Source) (name : string) (e : exn) : event :=
  match e with
  | NotFound _ => Log DEBUG (MsgNoVersionsFound name (url idx) e)
  | _ => Log ERROR (MsgVersionsFailed name e)
  end.

(** How a delivery relates to the trigger it was made for: the posted URL
    is the expansion of the trigger's template, and the [verify] keyword
    is there exactly when the template itself starts with [https://],
    holding the trigger's [tls_verify] (by default [True]). *)
Definition delivery_of {W : Type} (C : Collab W) (g : Globals) (trigger : yaml)
    (name version index_url : string) (target : string) (verify : option yaml) : Prop :=
  exists template,
    py_getitem trigger "url" = Ok (YStr template) /\
    expand_url C g template name version index_url = Ok target /\
    (verify <> None <-> String.prefix "https://" template = true) /\
    (forall v, verify = Some v -> py_get trigger "tls_verify" (YBool true) = Ok v).

Definition posts_follow {W : Type} (C : Collab W) (g : Globals) (triggers : list yaml)
    (name version index_url : string) (ev : event) : Prop :=
  match ev with
  | HttpPost target _ verify _ =>
      exists trigger,
        In trigger triggers /\
        delivery_of C g trigger name version index_url target verify
  | _ => True
  end.

(** ** The store and the catalogue, as a second pass needs them *)

Section Contracts.

Context {W : Type} (C : Collab W).

(** What is asked of the store, for some reading [holds] of which tuples a
    world's store holds: a create of a tuple that is held answers
    [existed_before = true]; a create that answers with an entity leaves
    the tuple held; and no call the pass makes removes a tuple. *)
Record StoreLaws (holds : W -> string * string * string -> bool) : Prop := {
  create_known :
    forall name version index_url ois w,
      holds w (name, version, index_url) = true ->
      exists entity,
        fst (create_python_package_version_entity C name version index_url ois w)
          = Ok (Some (entity, true));
  create_stores :
    forall name version index_url ois w entity existed,
      fst (create_python_package_version_entity C name version index_url ois w)
        = Ok (Some (entity, existed)) ->
      holds (snd (create_python_package_version_entity C name version index_url ois w))
            (name, version, index_url) = true;
  create_keeps :
    forall name version index_url ois w t,
      holds w t = true ->
      holds (snd (create_python_package_version_entity C name version index_url ois w)) t
        = true;
  sources_keep :
    forall w t, holds w t = true -> holds (snd (get_python_package_index_all C w)) t = true;
  packages_keep :
    forall idx w t, holds w t = true -> holds (snd (get_packages C idx w)) t = true;
  versions_keep :
    forall idx name w t,
      holds w t = true -> holds (snd (get_package_versions C idx name w)) t = true;
  post_keeps :
    forall target data verify w t,
      holds w t = true -> holds (snd (requests_post C target data verify w)) t = true
}.

(** The index and version state does not change: the three listings
    answer the same in every world. *)
Record FixedCatalog (sources : result (list Source))
    (packages : Source -> result (list string))
    (versions : Source -> string -> result (list string)) : Prop := {
  fixed_sources : forall w, fst (get_python_package_index_all C w) = sources;
  fixed_packages : forall idx w, fst (get_packages C idx w) = packages idx;
  fixed_versions : forall idx name w, fst (get_package_versions C idx name w) = versions idx name
}.

End Contracts.

(** The candidate names of an index, [package_names or get_packages()],
    when the catalogue is fixed. *)
Definition candidates_of (packages : Source -> result (list string))
    (names : option (list string)) (idx : Source) : result (list string) :=
  match names with
  | Some (n :: l) => Ok (n :: l)
  | _ => packages idx
  end.

(** The tuples a pass over a fixed catalogue asks the store to create. *)
Definition offered (sources : result (list Source))
    (packages : Source -> result (list string))
    (versions : Source -> string -> result (list string))
    (names : option (list string)) (t : string * string * string) : Prop :=
  exists srcs idx cands name vs version,
    sources = Ok srcs /\ In idx srcs /\
    candidates_of packages names idx = Ok cands /\ In name cands /\
    versions idx name = Ok vs /\ In version vs /\
    t = (name, version, url idx).

(** No tuple held before is lost. *)
Definition kept {W : Type} (holds : W -> string * string * string -> bool)
    (s s' : state W) : Prop :=
  forall t, holds (world s) t = true -> holds (world s') t = true.

(** No tuple is lost and, if every tuple of [T] was held before, the
    "added" gauge has not moved. *)
Definition quiet {W : Type} (holds : W -> string * string * string -> bool)
    (T : string * string * string -> Prop) (s s' : state W) : Prop :=
  kept holds s s' /\
  ((forall t, T t -> holds (world s) t = true) ->
   packages_added (registry s') = packages_added (registry s)).

(** A delivery that went through: the POST returned and
    [raise_for_status] did not raise. *)
Definition delivered (ev : event) : bool :=
  match ev with
  | HttpPost _ _ _ (Ok status) =>
      match raise_for_status status with
      | Ok _ => true
      | Raise _ => false
      end
  | _ => false
  end.

(** [yields Q m]: running [m] appends some records to the history, and
    [Q] relates them to the outcome. *)
Definition yields {W A : Type} (Q : result A -> list event -> Prop) (m : M W A) : Prop :=
  forall s, exists evs, trace (snd (m s)) = trace s ++ evs /\ Q (fst (m s)) evs.

(** [silent m]: [m] leaves the state as it is. *)
Definition silent {W A : Type} (m : M W A) : Prop := forall s, snd (m s) = s.

(** Whether [deliver] returned, read off the records it left. *)
Definition went_through {A : Type} (r : result A) (evs : list event) : Prop :=
  existsb delivered evs = match r with Ok _ => true | Raise _ => false end.

(** What a loop of triggers started with [was_triggered = b0] returns. *)
Definition returns_or (b0 : bool) (r : result bool) (evs : list event) : Prop :=
  forall b, r = Ok b -> b = b0 || existsb delivered evs.

(** ** What the other properties are stated with *)

Definition is_triggering (ev : event) : bool :=
  match ev with
  | Log DEBUG (MsgTriggering _ _) => true
  | _ => false
  end.

(** The records one call of [deliver] can leave: none, when the trigger
    or its URL is unusable, or the one POST, with the four values as
    payload; [deliver] returns exactly when the POST was answered with a
    status that is not an error. *)
Definition deliver_shape (g : Globals) (name version index_url : string)
    (r : result unit) (evs : list event) : Prop :=
  (evs = [] /\ exists e, r = Raise e) \/
  (exists target verify res,
      evs = [HttpPost target (notification_data g name version index_url) verify res] /\
      r = match res with
          | Ok status => raise_for_status status
          | Raise e => Raise e
          end).

(** [grows Q s s']: from [s] to [s'] the history grew by records that,
    taken together, satisfy [Q]. *)
Definition grows {W : Type} (Q : list event -> Prop) (s s' : state W) : Prop :=
  exists evs, trace s' = trace s ++ evs /\ Q evs.

(** Properties of a run's records that hold of no record and of two runs
    one after the other when they hold of each. *)
Class AppClosed (Q : list event -> Prop) : Prop := {
  closed_nil : Q [];
  closed_app : forall a b, Q a -> Q b -> Q (a ++ b)
}.

(** The payload of a POST is [data]. *)
Definition carries (data : list (string * string)) (ev : event) : Prop :=
  match ev with
  | HttpPost _ d _ _ => d = data
  | _ => True
  end.

(** Every POST comes after a create that returned an entity, and carries
    that entity's name and version and that create's index URL. *)
Definition backed (g : Globals) (evs : list event) : Prop :=
  forall pre target data verify res post,
    evs = pre ++ HttpPost target data verify res :: post ->
    exists name version index_url ois entity existed,
      In (CreateEntity name version index_url ois (Ok (Some (entity, existed)))) pre /\
      data = notification_data g (package_name entity) (package_version entity) index_url.

(** [fixes f s s']: the reading [f] of the gauges is the same in [s'] as
    in [s]. *)
Definition fixes {W : Type} (f : Registry -> nat) (s s' : state W) : Prop :=
  f (registry s') = f (registry s).

(** [supported Sup evs]: every record of [evs] has, in the records before
    it, what [Sup] asks for. *)
Definition supported (Sup : list event -> event -> Prop) (evs : list event) : Prop :=
  forall pre ev post, evs = pre ++ ev :: post -> Sup pre ev.

(** What a create of a pass rests on: it carries the flag of the pass, and
    its version is one of those a listing for its package on its index
    returned. *)
Definition listing (ois : bool) (pre : list event) (ev : event) : Prop :=
  match ev with
  | CreateEntity name version index_url flag _ =>
      flag = ois /\
      exists versions,
        In (GetPackageVersions index_url name (Ok versions)) pre /\ In version versions
  | _ => True
  end.

(** The records of a pass over an explicit list of names: the catalogue of
    no index is asked for, and versions are listed for named packages
    only. *)
Definition within (names : list string) (ev : event) : Prop :=
  match ev with
  | GetPackages _ => False
  | GetPackageVersions _ name _ => In name names
  | CreateEntity name _ _ _ _ => In name names
  | _ => True
  end.

(** A store create that raised. *)
Definition failing_create (ev : event) : bool :=
  match ev with
  | CreateEntity _ _ _ _ (Raise _) => true
  | _ => false
  end.

Definition clean : list event -> Prop :=
  Forall (fun ev => failing_create ev = false).

(** Either no create raised, or one did, it is the last record, and what
    it raised is the outcome. *)
Definition halted {A : Type} (r : result A) (evs : list event) : Prop :=
  clean evs \/
  exists pre name version index_url ois e,
    evs = pre ++ [CreateEntity name version index_url ois (Raise e)] /\
    clean pre /\ r = Raise e.

(** The records [cli] can leave before the pass: its own log records, the
    reading of the names file, the connection to the store, the catalogue
    of known names and the loading of the monitoring configuration. *)
Definition startup_event (ev : event) : bool :=
  match ev with
  | Log DEBUG MsgDebugModeOn => true
  | Log INFO MsgVersion => true
  | Log WARNING MsgNoPackages => true
  | Log DEBUG (MsgLoadingRemoteConfig _) => true
  | Log DEBUG (MsgLoadingLocalConfig _) => true
  | Log ERROR (MsgConfigLoadFailed _) => true
  | ReadFile _ => true
  | HttpGet _ => true
  | GraphConnect => true
  | NamesAll => true
  | _ => false
  end.

(** The indices a run's records say were checked, in order. *)
Fixpoint checked (evs : list event) : list string :=
  match evs with
  | [] => []
  | Log INFO (MsgCheckingIndex index_url) :: rest => index_url :: checked rest
  | _ :: rest => checked rest
  end.

Definition is_checking (ev : event) : bool :=
  match ev with
  | Log INFO (MsgCheckingIndex _) => true
  | _ => false
  end.

(** The names [release_notification] passes to [format] besides the
    environment. *)
Definition reserved_names : list string :=
  ["package_name"; "package_version"; "index_url"; "thoth_deployment_name"].

(** A store create that returned an entity, new or not. *)
Definition returned_entity (ev : event) : bool :=
  match ev with
  | CreateEntity _ _ _ _ (Ok (Some _)) => true
  | _ => false
  end.

(** The "notified" gauge did not go down, and went up by no more than the
    number of creates that returned an entity. *)
Definition tallied {W : Type} (s s' : state W) : Prop :=
  exists evs,
    trace s' = trace s ++ evs /\
    packages_notified (registry s) <= packages_notified (registry s') /\
    packages_notified (registry s') <=
      packages_notified (registry s) + count returned_entity evs.

(** An outcome that is not an [Exception] raised: a return, or something
    like [KeyboardInterrupt] that no [except Exception] is meant to stop. *)
Definition harmless {A : Type} (r : result A) : Prop :=
  match r with
  | Ok _ => True
  | Raise e => is_Exception e = false
  end.

(** [spares m]: [m] never ends with an [Exception]. *)
Definition spares {W A : Type} (m : M W A) : Prop := forall s, harmless (fst (m s)).

(** [returns Q m]: whatever [m] returns satisfies [Q]. *)
Definition returns {W A : Type} (Q : A -> Prop) (m : M W A) : Prop :=
  forall s a, fst (m s) = Ok a -> Q a.

(** The collaborators [C] with another way to list the packages of an
    index. *)
Definition with_catalogue {W : Type} (C : Collab W)
    (packages : Source -> W -> result (list string) * W) : Collab W :=
  mkCollab (str_format C) (yaml_safe_load C) (jsonpath_find C) (read_file C)
           (requests_get C) (requests_post C) (graph_connect C)
           (get_python_package_index_all C) packages (get_package_versions C)
           (create_python_package_version_entity C)
           (get_python_package_version_entities_names_all C)
           (push_to_gateway C) (default_timer C).



(** * Properties *)

(** ** Relations every step keeps *)

Section Keeps.

Context {W : Type} (R : state W -> state W -> Prop) {HR : PreOrder R}.

Lemma keeps_ret {A : Type} (a : A) : keeps R (ret (W:=W) a).
Proof. intro s; simpl; reflexivity. Qed.

Lemma keeps_raise {A : Type} (e : exn) : keeps R (raise (W:=W) (A:=A) e).
Proof. intro s; simpl; reflexivity. Qed.

Lemma keeps_lift {A : Type} (r : result A) : keeps R (lift (W:=W) r).
Proof. intro s; simpl; reflexivity. Qed.

Lemma keeps_get_registry : keeps R (get_registry (W:=W)).
Proof. intro s; simpl; reflexivity. Qed.

Lemma keeps_step {A : Type} (s s1 : state W) (m : M W A) :
  R s s1 -> keeps R m -> R s (snd (m s1)).
Proof.
  intros H Hm. transitivity s1; [exact H | apply Hm].
Qed.

(** The continuation may rely on what is known of every value the first
    step can return. *)
Lemma keeps_bind_ok {A B : Type} (Q : A -> Prop) (m : M W A) (k : A -> M W B) :
  keeps R m ->
  (forall s a, fst (m s) = Ok a -> Q a) ->
  (forall a, Q a -> keeps R (k a)) ->
  keeps R (bind m k).
Proof.
  intros Hm Hq Hk s. unfold bind. specialize (Hm s). specialize (Hq s).
  destruct (m s) as [[a | e] s1]; simpl in *; auto.
  transitivity s1; [exact Hm | apply Hk; auto].
Qed.

Lemma keeps_bind {A B : Type} (m : M W A) (k : A -> M W B) :
  keeps R m -> (forall a, keeps R (k a)) -> keeps R (bind m k).
Proof.
  intros Hm Hk. apply keeps_bind_ok with (Q := fun _ => True); auto.
Qed.

Lemma keeps_try_except {A : Type} (m : M W A) (h : exn -> M W A) :
  keeps R m -> (forall e, keeps R (h e)) -> keeps R (try_except m h).
Proof.
  intros Hm Hh s. unfold try_except. specialize (Hm s).
  destruct (m s) as [[a | e] s1]; simpl in *; auto.
  destruct (is_Exception e); simpl; auto.
  transitivity s1; [exact Hm | apply Hh].
Qed.

Lemma keeps_try_finally {A : Type} (m : M W A) (f : M W unit) :
  keeps R m -> keeps R f -> keeps R (try_finally m f).
Proof.
  intros Hm Hf s. unfold try_finally. specialize (Hm s).
  destruct (m s) as [r s1]; simpl in *.
  specialize (Hf s1). destruct (f s1) as [[u | e] s2]; simpl in *;
    transitivity s1; auto.
Qed.

Lemma keeps_foreach_in {A : Type} (l : list A) (body : A -> M W unit) :
  (forall x, In x l -> keeps R (body x)) -> keeps R (foreach l body).
Proof.
  induction l as [| x l IH]; intro Hb; simpl.
  - apply keeps_ret.
  - apply keeps_bind.
    + apply Hb; left; reflexivity.
    + intros _. apply IH. intros y Hy. apply Hb; right; exact Hy.
Qed.

Lemma keeps_foreach {A : Type} (l : list A) (body : A -> M W unit) :
  (forall x, keeps R (body x)) -> keeps R (foreach l body).
Proof.
  intro Hb. apply keeps_foreach_in. auto.
Qed.

End Keeps.

(** ** The history only grows *)

Lemma count_app (f : event -> bool) (l1 l2 : list event) :
  count f (l1 ++ l2) = count f l1 + count f l2.
Proof.
  unfold count. rewrite filter_app, length_app. reflexivity.
Qed.

Section Since.

Context {W : Type}.
Variable P : event -> Prop.

Lemma since_refl (s : state W) : since P s s.
Proof.
  exists []. rewrite app_nil_r. repeat split; auto; simpl; lia.
Qed.

Lemma since_trans (s0 s1 s2 : state W) :
  since P s0 s1 -> since P s1 s2 -> since P s0 s2.
Proof.
  intros (e1 & T1 & F1 & A1) (e2 & T2 & F2 & A2).
  exists (e1 ++ e2). rewrite T2, T1, app_assoc, count_app.
  repeat split; auto.
  - apply Forall_app; auto.
  - lia.
Qed.

#[export] Instance since_preorder : PreOrder (since (W:=W) P).
Proof.
  split; [exact since_refl | exact since_trans].
Qed.

Lemma emits_emit (ev : event) :
  P ev -> is_new ev = false -> emits P (emit (W:=W) ev).
Proof.
  intros Hp Hn s. exists [ev]. simpl. repeat split; auto.
  unfold count; simpl. rewrite Hn. simpl. lia.
Qed.

Lemma emits_log (lvl : level) (m : message) :
  P (Log lvl m) -> emits P (log (W:=W) lvl m).
Proof. intro Hp. apply emits_emit; auto. Qed.

Lemma emits_extern {A : Type} (op : W -> result A * W) (ev : result A -> event) :
  (forall r, P (ev r)) -> (forall r, is_new (ev r) = false) ->
  emits P (extern op ev).
Proof.
  intros Hp Hn s. unfold extern. destruct (op (world s)) as [r w']. simpl.
  exists [ev r]. simpl. repeat split; auto.
  unfold count; simpl. rewrite Hn. simpl. lia.
Qed.

Lemma emits_inc_notified : emits P (inc_notified (W:=W)).
Proof. intro s. exists []. simpl. rewrite app_nil_r. repeat split; auto; try lia. Qed.

Lemma emits_set_time (d : Z) : emits P (set_time (W:=W) d).
Proof. intro s. exists []. simpl. rewrite app_nil_r. repeat split; auto; try lia. Qed.

Lemma emits_set_debug : emits P (set_debug (W:=W)).
Proof. intro s. exists []. simpl. rewrite app_nil_r. repeat split; auto; try lia. Qed.

End Since.

Lemma since_weaken {W : Type} (P Q : event -> Prop) (s0 s : state W) :
  (forall ev, P ev -> Q ev) -> since P s0 s -> since Q s0 s.
Proof.
  intros H (evs & T & F & A). exists evs. repeat split; auto.
  eapply Forall_impl; eauto.
Qed.

(** ** The records each block leaves *)

Ltac preorder := typeclasses eauto.

Ltac walk_with known :=
  repeat first
    [ known
    | apply keeps_ret; preorder
    | apply keeps_raise; preorder
    | apply keeps_lift; preorder
    | apply keeps_get_registry; preorder
    | apply emits_inc_notified | apply emits_set_time | apply emits_set_debug
    | apply keeps_bind; [preorder | | intros ?]
    | apply keeps_try_except; [preorder | | intros ?]
    | apply keeps_try_finally; [preorder | | ]
    | apply keeps_foreach; [preorder | intros ?]
    | apply emits_log
    | apply emits_extern; [intros ? | intros ?; reflexivity]
    | match goal with
      | |- emits _ (if ?b then _ else _) => destruct b
      | |- emits _ (match ?x with _ => _ end) => destruct x
      | |- keeps _ (if ?b then _ else _) => destruct b
      | |- keeps _ (match ?x with _ => _ end) => destruct x
      end ].

Ltac walk := walk_with fail.

Section Walk.

Context {W : Type} (C : Collab W) (g : Globals).
Variable P : event -> Prop.

Section Dispatch.

Hypothesis dispatch_ok : forall ev, dispatch_event ev = true -> P ev.

Lemma emits_deliver (trigger : yaml) (name version index_url : string) :
  emits P (deliver C g trigger name version index_url).
Proof.
  unfold deliver. walk. apply dispatch_ok. reflexivity.
Qed.

Lemma emits_notify_triggers (name version index_url : string) (triggers : list yaml) :
  forall b, emits P (notify_triggers C g name version index_url b triggers).
Proof.
  induction triggers as [| t l IH]; intro b; simpl.
  - apply keeps_ret; preorder.
  - apply keeps_bind; [preorder | | intro; apply IH].
    unfold notify_trigger. walk; apply dispatch_ok; reflexivity.
Qed.

Lemma emits_release_notification (mp : yaml) (name version index_url : string) :
  emits P (release_notification C g mp name version index_url).
Proof.
  unfold release_notification. walk. apply emits_notify_triggers.
Qed.

End Dispatch.

Section Engine.

Variable ois : bool.
Hypothesis version_ok : forall ev, version_event ois ev = true -> P ev.

Lemma version_dispatch_ok : forall ev, dispatch_event ev = true -> P ev.
Proof.
  intros ev H. apply version_ok.
  destruct ev as [[] [] | | | | | | | | | |]; simpl in *; auto; discriminate.
Qed.

Lemma emits_notify (mp : yaml) (idx : Source) (name version : string)
    (added : Entity * bool) :
  emits P (notify C g mp idx name version added).
Proof.
  unfold notify.
  walk_with ltac:(apply emits_release_notification; apply version_dispatch_ok);
    apply version_ok; reflexivity.
Qed.

(** One round of the version loop, given that the sentinel record is
    acceptable whenever the store answers with the sentinel. *)
Lemma since_check_version (mp : yaml) (idx : Source) (name version : string)
    (s : state W) :
  (fst (create_python_package_version_entity C name version (url idx) ois (world s))
     = Ok None ->
   P (Log DEBUG (MsgNotAdded name version (url idx)))) ->
  since P s (snd (check_version C g mp ois idx name version s)).
Proof.
  intro Hsent.
  assert (Hc : forall r, P (CreateEntity name version (url idx) ois r)).
  { intro r. apply version_ok. simpl. apply Bool.eqb_reflx. }
  unfold check_version, bind, extern.
  destruct (create_python_package_version_entity C name version (url idx) ois (world s))
    as [r w'] eqn:E.
  simpl in Hsent.
  destruct r as [[[entity existed] |] | e].
  - destruct existed; cbn [snd negb log emit inc_added update_registry fst].
    + apply keeps_step; [preorder | | apply emits_notify].
      eexists [_; _]. cbn [trace registry packages_added].
      rewrite <- app_assoc. repeat split.
      * repeat constructor; [apply Hc | apply version_ok; reflexivity].
      * unfold count; simpl; lia.
    + apply keeps_step; [preorder | | apply emits_notify].
      eexists [_; _]. cbn [trace registry packages_added].
      rewrite <- app_assoc. repeat split.
      * repeat constructor; [apply Hc | apply version_ok; reflexivity].
      * unfold count; simpl; lia.
  - cbn [snd log emit].
    eexists [_; _]. cbn [trace registry]. rewrite <- app_assoc. repeat split.
    + repeat constructor; [apply Hc | apply Hsent; reflexivity].
    + unfold count; simpl; lia.
  - cbn [snd]. eexists [_]. cbn [trace registry]. repeat split.
    + repeat constructor. apply Hc.
    + unfold count; simpl; lia.
Qed.

Hypothesis walk_ok : forall ev, walk_event ev = true -> P ev.

Lemma emits_engine_from (mp : yaml) (names : option (list string)) :
  (forall idx name version, emits P (check_version C g mp ois idx name version)) ->
  emits P (package_releases_update C g mp names ois).
Proof.
  intro Hcv.
  unfold package_releases_update, check_index, candidates, check_package.
  walk_with ltac:(apply Hcv); apply walk_ok; reflexivity.
Qed.

End Engine.

Section Run.

Hypothesis setup_ok : forall ev, setup_event ev = true -> P ev.
Hypothesis pass_ok :
  forall mp names, emits P (package_releases_update C g mp names false).

Lemma emits_now : emits P (now C).
Proof.
  intro s. unfold now. destruct (default_timer C (world s)) as [t w'].
  exists []. simpl. rewrite app_nil_r. repeat split; auto; lia.
Qed.

Lemma emits_timed {A : Type} (body : M W A) : emits P body -> emits P (timed C body).
Proof.
  intro Hb. unfold timed. walk_with ltac:(first [apply emits_now | apply Hb]).
Qed.

Lemma emits_push_metrics : emits P (push_metrics C g).
Proof.
  unfold push_metrics. walk; apply setup_ok; reflexivity.
Qed.

Lemma emits_run_pass (mp : yaml) (names : option (list string)) :
  emits P (run_pass C g mp names).
Proof.
  unfold run_pass. apply keeps_try_finally; [preorder | |].
  - apply emits_timed, pass_ok.
  - apply emits_push_metrics.
Qed.

Lemma emits_prepare (a : Args) : emits P (prepare C a).
Proof.
  unfold prepare, read_package_names, _load_package_monitoring_config.
  walk; apply setup_ok; reflexivity.
Qed.

Lemma emits_cli (a : Args) : emits P (cli C g a).
Proof.
  unfold cli.
  apply keeps_bind; [preorder | apply emits_prepare | intro; apply emits_run_pass].
Qed.

End Run.
End Walk.

(** ** The engine and the "added" gauge *)

Section EngineFacts.

Context {W : Type} (C : Collab W) (g : Globals).

Lemma emits_check_version (P : event -> Prop) (ois : bool) (mp : yaml)
    (idx : Source) (name version : string) :
  (forall ev, version_event ois ev = true -> P ev) ->
  (forall ev, sentinel_event ev = true -> P ev) ->
  emits P (check_version C g mp ois idx name version).
Proof.
  intros Hv Hs s. apply since_check_version; auto.
Qed.

Lemma emits_engine (ois : bool) (mp : yaml) (names : option (list string)) :
  emits (fun ev => engine_event ois ev = true)
        (package_releases_update C g mp names ois).
Proof.
  apply emits_engine_from.
  - intros ev H. unfold engine_event. rewrite H, !orb_true_r. reflexivity.
  - intros idx name version. apply emits_check_version; intros ev H;
      unfold engine_event; rewrite H; rewrite ?orb_true_r; reflexivity.
Qed.

Lemma emits_main (P : event -> Prop) (env : list (string * string)) (a : Args) :
  P (Log INFO MsgStartup) ->
  (forall ev, setup_event ev = true -> P ev) ->
  (forall g' mp names, emits P (package_releases_update C g' mp names false)) ->
  emits P (main C env a).
Proof.
  intros H0 Hs Hp. unfold main.
  walk_with ltac:(apply emits_cli; auto). exact H0.
Qed.

End EngineFacts.

(** C4.  In every pass the "added" gauge grows by exactly the number of
    store creates that answered [existed_before = false]: a sentinel
    answer, an [existed_before = true] answer and a create that raised
    count for nothing.  Hence at the end of a whole run, started with the
    gauge at zero, the gauge equals the number of genuinely new tuples of
    the run. *)
Theorem added_metric_counts_new_tuples :
  forall (W : Type) (C : Collab W),
    (forall (g : Globals) (mp : yaml) (names : option (list string)) (ois : bool)
            (s : state W),
        let s' := snd (package_releases_update C g mp names ois s) in
        exists evs,
          trace s' = trace s ++ evs /\
          packages_added (registry s') =
            packages_added (registry s) + count is_new evs) /\
    (forall (env : list (string * string)) (a : Args) (w : W),
        let s' := snd (main C env a (initial_state w)) in
        packages_added (registry s') = count is_new (trace s')).
Proof.
  intros W C. split.
  - intros g mp names ois s s'.
    destruct (emits_engine C g ois mp names s) as (evs & T & _ & A).
    exists evs. split; assumption.
  - intros env a w s'.
    assert (H : emits (fun _ => True) (main C env a)).
    { apply emits_main; auto.
      intros g' mp names.
      intro s. eapply since_weaken; [| apply (emits_engine C g' false mp names s)].
      auto. }
    destruct (H (initial_state w)) as (evs & T & _ & A).
    fold s' in T, A. simpl in T, A. rewrite T. exact A.
Qed.

(** ** The flag the command line never forwards *)

(** C10.  [cli] calls [package_releases_update] without the
    only-if-package-seen flag, whatever the arguments: every store create
    of a run carries [only_if_package_seen = false].  With a store that
    returns the sentinel only when asked to, the sentinel branch of the
    engine is therefore never taken in a run: no "was not added" record
    is logged. *)
Theorem cli_never_forwards_only_if_seen :
  forall (W : Type) (C : Collab W) (g : Globals) (a : Args) (s : state W),
    let s' := snd (cli C g a s) in
    exists evs,
      trace s' = trace s ++ evs /\
      (forall name version index_url ois res,
          In (CreateEntity name version index_url ois res) evs -> ois = false) /\
      (sentinel_only_if_asked C ->
       forall lvl name version index_url,
         ~ In (Log lvl (MsgNotAdded name version index_url)) evs).
Proof.
  intros W C g a s s'.
  set (P := fun ev =>
              (version_event false ev || sentinel_event ev || walk_event ev
               || setup_event ev) = true /\
              (sentinel_only_if_asked C -> sentinel_event ev = false)).
  assert (Hv : forall ev, version_event false ev = true -> P ev).
  { intros ev H. split; [rewrite H; reflexivity |].
    intros _. destruct ev as [[] [] | | | | | | | | | |]; simpl in *;
      auto; discriminate. }
  assert (Hw : forall ev, walk_event ev = true -> P ev).
  { intros ev H. split; [rewrite H, !orb_true_r; reflexivity |].
    intros _. destruct ev as [[] [] | | | | | | | | | |]; simpl in *;
      auto; discriminate. }
  assert (Hs : forall ev, setup_event ev = true -> P ev).
  { intros ev H. split; [rewrite H, !orb_true_r; reflexivity |].
    intros _. destruct ev as [[] [] | | | | | | | | | |]; simpl in *;
      auto; discriminate. }
  assert (H : emits P (cli C g a)).
  { apply emits_cli; auto.
    intros mp names. apply emits_engine_from with (ois := false); auto.
    intros idx name version s0. apply since_check_version; auto.
    intro Hnone. split; [reflexivity |].
    intro Hlaw. exfalso. exact (Hlaw _ _ _ _ Hnone). }
  destruct (H s) as (evs & T & F & _).
  exists evs. split; [exact T |]. rewrite Forall_forall in F. split.
  - intros name version index_url ois res Hin.
    destruct (F _ Hin) as [Hc _]. simpl in Hc.
    rewrite !orb_false_r in Hc. destruct ois; [discriminate | reflexivity].
  - intros Hlaw lvl name version index_url Hin.
    destruct (F _ Hin) as [Hc Hn]. specialize (Hn Hlaw).
    destruct lvl; simpl in *; discriminate.
Qed.

(** ** The metrics push *)

Lemma engine_events_no_push (ois : bool) (evs : list event) :
  Forall (fun ev => engine_event ois ev = true) evs -> count is_push evs = 0.
Proof.
  induction 1 as [| ev evs H _ IH]; [reflexivity |].
  unfold count in *. simpl.
  destruct ev as [[] [] | | | | | | | | | |]; simpl in *; auto; discriminate.
Qed.

(** C8, as the code has it.  The pass itself never pushes.  When a push
    gateway is configured (the variable is set and not empty), the run
    makes exactly one push attempt, after the pass has returned or raised
    and with the registry as the pass left it; a push that fails with an
    [Exception] is logged and the run ends as the pass ended.  When no
    gateway is configured, nothing is pushed and nothing happens after
    the pass. *)
Theorem metrics_pushed_once_when_configured :
  forall (W : Type) (C : Collab W) (g : Globals) (mp : yaml)
         (names : option (list string)) (s : state W),
    let pass := timed C (package_releases_update C g mp names false) in
    let r1 := fst (pass s) in
    let s1 := snd (pass s) in
    let out := run_pass C g mp names s in
    (exists evs, trace s1 = trace s ++ evs /\ count is_push evs = 0) /\
    (forall gw,
        _THOTH_METRICS_PUSHGATEWAY_URL g = Some gw -> gw <> ""%string ->
        exists tail,
          trace (snd out) =
            trace s1 ++ [Log INFO (MsgSubmittingMetrics gw);
                         PushToGateway gw "package-release" (registry s1)] ++ tail /\
          count is_push tail = 0 /\
          match fst (push_to_gateway C gw "package-release" (registry s1) (world s1)) with
          | Ok _ => tail = [] /\ fst out = r1
          | Raise e =>
              if is_Exception e
              then tail = [Log ERROR (MsgPushFailed e)] /\ fst out = r1
              else tail = [] /\ fst out = Raise e
          end) /\
    (str_truthy (_THOTH_METRICS_PUSHGATEWAY_URL g) = false ->
     snd out = s1 /\ fst out = r1).
Proof.
  intros W C g mp names s pass r1 s1 out. split; [| split].
  - assert (H : emits (fun ev => engine_event false ev = true) pass).
    { apply emits_timed. apply emits_engine. }
    destruct (H s) as (evs & T & F & _). exists evs. split; [exact T |].
    eapply engine_events_no_push; eauto.
  - intros gw Hgw Hne.
    subst out. unfold run_pass, try_finally. fold pass.
    subst r1 s1. destruct (pass s) as [r1 s1]. cbn [fst snd].
    unfold push_metrics. rewrite Hgw.
    assert (Ht : str_truthy (Some gw) = true).
    { simpl. apply negb_true_iff. apply String.eqb_neq. exact Hne. }
    rewrite Ht.
    unfold try_except, bind, log, emit, get_registry, extern. cbn [fst snd world registry trace debug_enabled].
    destruct (push_to_gateway C gw "package-release" (registry s1) (world s1))
      as [[u | e] w'].
    + exists []. cbn. rewrite <- app_assoc. auto.
    + cbn [fst]. destruct (is_Exception e).
      * exists [Log ERROR (MsgPushFailed e)]. cbn. rewrite <- !app_assoc. auto.
      * exists []. cbn. rewrite <- app_assoc. auto.
  - intro Hf. subst out. unfold run_pass, try_finally. fold pass.
    subst r1 s1. destruct (pass s) as [r1 s1]. cbn [fst snd].
    unfold push_metrics.
    destruct (_THOTH_METRICS_PUSHGATEWAY_URL g) as [gw |]; [rewrite Hf |]; cbn; auto.
Qed.

(** ** Configuration errors *)

Lemma prepare_config_error {W : Type} (C : Collab W) (a : Args) (s : state W) :
  config_error C a (world s) ->
  exists e evs,
    fst (prepare C a s) = Raise e /\
    exit_status (Raise (A:=unit) e) <> 0%Z /\
    trace (snd (prepare C a s)) = trace s ++ evs /\
    Forall (fun ev => local_event ev = true) evs.
Proof.
  intro H. unfold prepare.
  set (s0 := mkState (world s) (registry s) (if verbose a then true else debug_enabled s)
                     (trace s ++ [Log DEBUG MsgDebugModeOn; Log INFO MsgVersion])).
  assert (E : forall (k : M W (yaml * option (list string))),
             ((if verbose a then set_debug else ret tt) ;;
              log DEBUG MsgDebugModeOn ;; log INFO MsgVersion ;; k) s = k s0).
  { intro k. unfold s0. destruct (verbose a); cbn; rewrite <- app_assoc; reflexivity. }
  rewrite E. clear E.
  destruct (str_truthy (package_names_file_jsonpath a)) eqn:J;
    destruct (str_truthy (package_names_file a)) eqn:F; cbn [andb negb].
  all: try (eexists; eexists [_; _]; cbn; repeat split;
            [discriminate | repeat constructor]).
  - destruct (only_if_package_seen a) eqn:O; cbn [andb].
    + eexists; eexists [_; _]; cbn; repeat split;
        [discriminate | repeat constructor].
    + destruct H as [[H _] | [[_ H] | [[_ H] | H]]]; try congruence.
      destruct H as (file & Hf & Ht & expr & text & content & items
                     & Hj & Hr & Hy & Hp & Hc).
      rewrite Hf, Ht, Hj.
      unfold read_package_names, bind, extern, lift, log, emit, raise.
      change (world s0) with (world s).
      destruct (read_file C file (world s)) as [r w'].
      cbn [fst] in Hr. subst r. rewrite Hy, Hp, Hc.
      eexists; eexists [_; _; _; _]; cbn. rewrite <- !app_assoc. repeat split;
        [discriminate | repeat constructor].
  - exfalso.
    destruct H as [[_ H] | [[H _] | [[H _] | H]]]; try congruence.
    destruct H as (file & Hf & Ht & _). rewrite Hf in F. congruence.
Qed.

(** C9.  Whatever the other arguments and whatever the world, a run whose
    arguments hold a configuration error (both selection modes, an
    expression without a file, a file without an expression, or a names
    file that yields no name) ends with a non-zero exit status, and all it
    has done by then is logging and reading the names file: no index, store,
    hook or gateway was called. *)
Theorem config_errors_exit_before_io :
  forall (W : Type) (C : Collab W) (env : list (string * string)) (a : Args) (w : W),
    config_error C a w ->
    let out := main C env a (initial_state w) in
    exit_status (fst out) <> 0%Z /\
    Forall (fun ev => local_event ev = true) (trace (snd out)).
Proof.
  intros W C env a w H out. subst out. unfold main, bind, log, emit.
  cbn [fst snd initial_state world registry debug_enabled trace app].
  unfold load_module.
  destruct (getenv env "THOTH_DEPLOYMENT_NAME") as [d |].
  - unfold cli, bind.
    set (g := mkGlobals _ _ _).
    set (s := mkState w _ _ _).
    destruct (prepare_config_error C a s H)
      as (e & evs & Hr & Hx & Ht & Hl).
    destruct (prepare C a s) as [r s']. cbn [fst snd] in *. subst r.
    cbn [fst snd]. split; [exact Hx |].
    rewrite Ht. apply Forall_app. split; [| exact Hl].
    repeat constructor.
  - cbn. split; [discriminate | repeat constructor].
Qed.

(** ** A failed version listing *)

Lemma foreach_app {W A : Type} (l1 l2 : list A) (body : A -> M W unit) (s : state W) :
  foreach (l1 ++ l2) body s = (foreach l1 body ;; foreach l2 body) s.
Proof.
  revert s. induction l1 as [| x l1 IH]; intro s; simpl.
  - reflexivity.
  - unfold bind. destruct (body x s) as [[u | e] s1]; [| reflexivity].
    rewrite IH. reflexivity.
Qed.

(** C6.  When the packages before [p] have been processed and the version
    listing of [p] fails with an [Exception], the round for [p] ends
    normally and leaves two records only, the call and one log record
    (debug level for [NotFound], error level otherwise); the gauges are
    untouched.  The package loop then goes on with the packages after [p],
    and the index loop with the indices after this one, from that state. *)
Theorem failed_package_is_skipped :
  forall (W : Type) (C : Collab W) (g : Globals) (mp : yaml) (ois : bool)
         (idx : Source) (pre post : list string) (p : string)
         (s s1 : state W) (e : exn),
    foreach pre (check_package C g mp ois idx) s = (Ok tt, s1) ->
    fst (get_package_versions C idx p (world s1)) = Raise e ->
    is_Exception e = true ->
    let s2 := mkState (snd (get_package_versions C idx p (world s1)))
                      (registry s1) (debug_enabled s1)
                      (trace s1 ++ [GetPackageVersions (url idx) p (Raise e);
                                    skip_record idx p e]) in
    check_package C g mp ois idx p s1 = (Ok tt, s2) /\
    foreach (pre ++ p :: post) (check_package C g mp ois idx) s =
      foreach post (check_package C g mp ois idx) s2 /\
    forall (names : option (list string)) (rest : list Source) (s0 : state W),
      (log INFO (MsgCheckingIndex (url idx)) ;; candidates C names idx) s0
        = (Ok (pre ++ p :: post), s) ->
      foreach (idx :: rest) (check_index C g mp names ois) s0 =
        (foreach post (check_package C g mp ois idx) ;;
         foreach rest (check_index C g mp names ois)) s2.
Proof.
  intros W C g mp ois idx pre post p s s1 e Hpre Hfail Hexc s2.
  assert (Hp : check_package C g mp ois idx p s1 = (Ok tt, s2)).
  { unfold check_package, bind, try_except, extern. subst s2.
    destruct (get_package_versions C idx p (world s1)) as [r w'].
    cbn [fst snd] in *. subst r. rewrite Hexc.
    destruct e; cbn; try discriminate; rewrite <- app_assoc; reflexivity. }
  assert (Hl : foreach (pre ++ p :: post) (check_package C g mp ois idx) s =
               foreach post (check_package C g mp ois idx) s2).
  { rewrite foreach_app. unfold bind at 1. rewrite Hpre.
    cbn [foreach]. unfold bind at 1. rewrite Hp. reflexivity. }
  repeat split; auto.
  intros names rest s0 Hc.
  cbn [foreach]. unfold bind at 1. unfold check_index.
  unfold bind at 1. unfold bind at 1 in Hc.
  destruct (log INFO (MsgCheckingIndex (url idx)) s0) as [[u | e0] s0']; [| discriminate].
  unfold bind at 1. rewrite Hc. rewrite Hl.
  unfold bind at 3. reflexivity.
Qed.

(** ** TLS verification of a delivery *)

Section Verify.

Context {W : Type} (C : Collab W) (g : Globals).
Variables (triggers : list yaml) (name version index_url : string).

Let P := posts_follow C g triggers name version index_url.

Lemma emits_deliver_follows (trigger : yaml) :
  In trigger triggers -> emits P (deliver C g trigger name version index_url).
Proof.
  intros Hin s. unfold deliver, bind, lift, extern.
  destruct (py_getitem trigger "url") as [trigger_url | e] eqn:Eu;
    [| apply since_refl].
  destruct trigger_url as [| b | z | template | l | m]; cbn [py_startswith];
    try apply since_refl.
  assert (Hv : forall verify,
             (verify <> None <-> String.prefix "https://" template = true) ->
             (forall v, verify = Some v ->
                        py_get trigger "tls_verify" (YBool true) = Ok v) ->
             since P s
               (snd (match expand_url C g template name version index_url with
                     | Ok target =>
                         match
                           (let (r, w') :=
                              requests_post C target
                                (notification_data g name version index_url) verify (world s) in
                            (r, mkState w' (registry s) (debug_enabled s)
                                  (trace s ++ [HttpPost target
                                       (notification_data g name version index_url)
                                       verify r])))
                         with
                         | (Ok status, s') => (raise_for_status status, s')
                         | (Raise e, s') => (Raise e, s')
                         end
                     | Raise e => (Raise e, s)
                     end))).
  { intros verify H1 H2.
    destruct (expand_url C g template name version index_url) as [target | e] eqn:Ex;
      [| apply since_refl].
    destruct (requests_post C target (notification_data g name version index_url)
                            verify (world s)) as [r w'].
    assert (Hs : since P s
                   (mkState w' (registry s) (debug_enabled s)
                      (trace s ++ [HttpPost target
                                     (notification_data g name version index_url)
                                     verify r]))).
    { exists [HttpPost target (notification_data g name version index_url) verify r].
      cbn. repeat split; auto.
      constructor; [| constructor].
      exists trigger. split; [exact Hin |]. exists template. auto. }
    destruct r as [status | e]; exact Hs. }
  destruct (String.prefix "https://" template) eqn:Ep.
  - destruct (py_get trigger "tls_verify" (YBool true)) as [v | e] eqn:Eg;
      [| apply since_refl].
    cbn [fst snd]. apply Hv.
    + split; [reflexivity | discriminate].
    + intros v' Hv'. congruence.
  - cbn [fst snd]. apply Hv.
    + split; [intro H; exfalso; apply H; reflexivity | discriminate].
    + discriminate.
Qed.

Lemma emits_notify_triggers_follow (l : list yaml) :
  incl l triggers ->
  forall b, emits P (notify_triggers C g name version index_url b l).
Proof.
  induction l as [| t l IH]; intros Hl b; simpl.
  - apply keeps_ret; preorder.
  - apply keeps_bind; [preorder | | intro; apply IH].
    + unfold notify_trigger.
      walk_with ltac:(apply emits_deliver_follows; apply Hl; left; reflexivity);
        exact I.
    + intros x Hx. apply Hl. right. exact Hx.
Qed.

End Verify.

(** Where the [verify] keyword of a delivery comes from.  Every delivery
    [release_notification] makes is made for one of the triggers
    configured for the package, and the URL posted to is the expansion of
    that trigger's template.  The test of line 110 is made on the
    template, before any placeholder is substituted, so the keyword is
    passed exactly when the template starts with [https://], whatever the
    URL posted to; when passed it holds the trigger's [tls_verify], by
    default [True]. *)
Lemma tls_verify_follows_url_template :
  forall (W : Type) (C : Collab W) (g : Globals) (mp : yaml)
         (name version index_url : string) (s : state W),
    let s' := snd (release_notification C g mp name version index_url s) in
    exists evs,
      trace s' = trace s ++ evs /\
      forall target data verify res,
        In (HttpPost target data verify res) evs ->
        exists triggers trigger,
          triggers_of mp name = Ok triggers /\
          In trigger triggers /\
          delivery_of C g trigger name version index_url target verify.
Proof.
  intros W C g mp name version index_url s s'. subst s'.
  unfold release_notification, bind, lift.
  destruct (triggers_of mp name) as [triggers | e] eqn:Et.
  - destruct (emits_notify_triggers_follow C g triggers name version index_url
                triggers (incl_refl _) false s) as (evs & T & F & _).
    exists evs. split; [exact T |].
    intros target data verify res Hin.
    rewrite Forall_forall in F. destruct (F _ Hin) as (trigger & Hi & Hd).
    exists triggers, trigger. auto.
  - exists []. cbn. rewrite app_nil_r. split; [reflexivity |].
    intros target data verify res [].
Qed.

(** ** A second pass *)

Lemma extern_fst {W A : Type} (op : W -> result A * W) (ev : result A -> event)
    (s : state W) :
  fst (extern op ev s) = fst (op (world s)).
Proof.
  unfold extern. destruct (op (world s)); reflexivity.
Qed.

Lemma extern_world {W A : Type} (op : W -> result A * W) (ev : result A -> event)
    (s : state W) :
  world (snd (extern op ev s)) = snd (op (world s)).
Proof.
  unfold extern. destruct (op (world s)); reflexivity.
Qed.

Lemma extern_registry {W A : Type} (op : W -> result A * W) (ev : result A -> event)
    (s : state W) :
  registry (snd (extern op ev s)) = registry s.
Proof.
  unfold extern. destruct (op (world s)); reflexivity.
Qed.

Section Kept.

Context {W : Type} (holds : W -> string * string * string -> bool).

#[export] Instance kept_preorder : PreOrder (kept holds).
Proof.
  split.
  - intros s t H. exact H.
  - intros s0 s1 s2 H1 H2 t H. apply H2, H1, H.
Qed.

#[export] Instance quiet_preorder (T : string * string * string -> Prop) :
  PreOrder (quiet holds T).
Proof.
  split.
  - intro s. split; [reflexivity | auto].
  - intros s0 s1 s2 [K1 A1] [K2 A2]. split; [etransitivity; eauto |].
    intro H. rewrite A2, A1; auto.
Qed.

Lemma quiet_of_kept (T : string * string * string -> Prop) {A : Type} (m : M W A) :
  keeps (kept holds) m ->
  (forall s, packages_added (registry (snd (m s))) = packages_added (registry s)) ->
  keeps (quiet holds T) m.
Proof.
  intros Hk Ha s. split; [apply Hk | intros _; apply Ha].
Qed.

Lemma kept_emit (ev : event) : keeps (kept holds) (emit (W:=W) ev).
Proof. intros s t H. exact H. Qed.

Lemma kept_update_registry (f : Registry -> Registry) :
  keeps (kept holds) (update_registry (W:=W) f).
Proof. intros s t H. exact H. Qed.

Lemma kept_extern {A : Type} (op : W -> result A * W) (ev : result A -> event) :
  (forall w t, holds w t = true -> holds (snd (op w)) t = true) ->
  keeps (kept holds) (extern op ev).
Proof.
  intros Hop s t H. rewrite extern_world. apply Hop, H.
Qed.

Lemma quiet_emit (T : string * string * string -> Prop) (ev : event) :
  keeps (quiet holds T) (emit (W:=W) ev).
Proof. apply quiet_of_kept; [apply kept_emit | reflexivity]. Qed.

Lemma quiet_inc_notified (T : string * string * string -> Prop) :
  keeps (quiet holds T) (inc_notified (W:=W)).
Proof. apply quiet_of_kept; [apply kept_update_registry | reflexivity]. Qed.

Lemma quiet_extern (T : string * string * string -> Prop) {A : Type}
    (op : W -> result A * W) (ev : result A -> event) :
  (forall w t, holds w t = true -> holds (snd (op w)) t = true) ->
  keeps (quiet holds T) (extern op ev).
Proof.
  intro Hop. apply quiet_of_kept; [apply kept_extern, Hop |].
  intro s. rewrite extern_registry. reflexivity.
Qed.

End Kept.

Ltac kept_leaf laws :=
  first [ apply kept_emit | apply kept_update_registry
        | apply kept_extern; first [ apply (create_keeps _ _ laws)
                                   | apply (sources_keep _ _ laws)
                                   | apply (packages_keep _ _ laws)
                                   | apply (versions_keep _ _ laws)
                                   | apply (post_keeps _ _ laws) ] ].

Ltac quiet_leaf laws :=
  first [ apply quiet_emit | apply quiet_inc_notified
        | apply quiet_extern; first [ apply (sources_keep _ _ laws)
                                    | apply (packages_keep _ _ laws)
                                    | apply (versions_keep _ _ laws)
                                    | apply (post_keeps _ _ laws) ] ].

Lemma keeps_notify_triggers {W : Type} (R : state W -> state W -> Prop)
    {HR : PreOrder R} (C : Collab W) (g : Globals) (name version index_url : string) :
  (forall b t, keeps R (notify_trigger C g name version index_url b t)) ->
  forall l b, keeps R (notify_triggers C g name version index_url b l).
Proof.
  intros Ht l. induction l as [| t l IH]; intro b; simpl.
  - apply keeps_ret; preorder.
  - apply keeps_bind; [preorder | apply Ht | intro; apply IH].
Qed.

Lemma foreach_stable {W A : Type} (Q : state W -> Prop)
    (body : A -> M W unit) (l : list A) :
  (forall y s, In y l -> Q s -> Q (snd (body y s))) ->
  forall s, Q s -> Q (snd (foreach l body s)).
Proof.
  induction l as [| y l IH]; intros Hs s Hq; simpl; [exact Hq |].
  unfold bind. pose proof (Hs y s (or_introl eq_refl) Hq) as H1.
  destruct (body y s) as [[u | e] s1]; simpl in *; [| exact H1].
  apply IH; [| exact H1]. intros z s0 Hz. apply Hs. right. exact Hz.
Qed.

Lemma foreach_establishes {W A : Type} (Good : A -> state W -> Prop)
    (body : A -> M W unit) (l : list A) :
  (forall x s s', In x l -> body x s = (Ok tt, s') -> Good x s') ->
  (forall x y s, Good x s -> Good x (snd (body y s))) ->
  forall s s', foreach l body s = (Ok tt, s') -> forall x, In x l -> Good x s'.
Proof.
  induction l as [| y l IH]; intros He Hs s s' Hrun x Hx; [destruct Hx |].
  simpl in Hrun. unfold bind in Hrun.
  destruct (body y s) as [[[] | e] s1] eqn:Ey; [| discriminate].
  destruct Hx as [-> | Hx].
  - replace s' with (snd (foreach l body s1)) by (rewrite Hrun; reflexivity).
    apply foreach_stable; [intros; apply Hs; assumption |].
    eapply He; [left; reflexivity | exact Ey].
  - apply (IH (fun z s0 s0' Hz => He z s0 s0' (or_intror Hz)) Hs s1 s' Hrun x Hx).
Qed.

Section SecondPass.

Context {W : Type} (C : Collab W) (g : Globals).
Variable holds : W -> string * string * string -> bool.
Hypothesis laws : StoreLaws C holds.

Lemma kept_notify (mp : yaml) (idx : Source) (name version : string)
    (added : Entity * bool) :
  keeps (kept holds) (notify C g mp idx name version added).
Proof.
  unfold notify, release_notification.
  walk_with ltac:(first [ kept_leaf laws
                        | apply keeps_notify_triggers; [preorder | intros ? ?];
                          unfold notify_trigger, deliver ]).
Qed.

Lemma kept_engine (mp : yaml) (names : option (list string)) (ois : bool) :
  keeps (kept holds) (package_releases_update C g mp names ois).
Proof.
  unfold package_releases_update, check_index, candidates, check_package, check_version.
  walk_with ltac:(first [ kept_leaf laws | apply kept_notify ]).
Qed.

Lemma kept_check_version (mp : yaml) (ois : bool) (idx : Source) (name version : string) :
  keeps (kept holds) (check_version C g mp ois idx name version).
Proof.
  unfold check_version.
  walk_with ltac:(first [ kept_leaf laws | apply kept_notify ]).
Qed.

Lemma kept_check_package (mp : yaml) (ois : bool) (idx : Source) (name : string) :
  keeps (kept holds) (check_package C g mp ois idx name).
Proof.
  unfold check_package.
  walk_with ltac:(first [ kept_leaf laws | apply kept_check_version ]).
Qed.

Lemma kept_check_index (mp : yaml) (names : option (list string)) (ois : bool)
    (idx : Source) :
  keeps (kept holds) (check_index C g mp names ois idx).
Proof.
  unfold check_index, candidates.
  walk_with ltac:(first [ kept_leaf laws | apply kept_check_package ]).
Qed.

(** *** What a completed pass leaves in the store *)

Variables (sources : result (list Source))
          (packages : Source -> result (list string))
          (versions : Source -> string -> result (list string)).
Hypothesis fixed : FixedCatalog C sources packages versions.

Section Stores.

Hypothesis asked : sentinel_only_if_asked C.

Lemma check_version_stores (mp : yaml) (idx : Source) (name version : string)
    (s s' : state W) :
  check_version C g mp false idx name version s = (Ok tt, s') ->
  holds (world s') (name, version, url idx) = true.
Proof.
  unfold check_version. unfold bind at 1. intro H.
  pose proof (extern_fst
                (create_python_package_version_entity C name version (url idx) false)
                (CreateEntity name version (url idx) false) s) as Ef.
  pose proof (extern_world
                (create_python_package_version_entity C name version (url idx) false)
                (CreateEntity name version (url idx) false) s) as Ew.
  destruct (extern (create_python_package_version_entity C name version (url idx) false)
                   (CreateEntity name version (url idx) false) s)
    as [[[[entity existed] |] | e] s1]; cbn [fst snd] in Ef, Ew;
    cbv beta iota zeta in H.
  - assert (Hs1 : holds (world s1) (name, version, url idx) = true).
    { rewrite Ew. eapply (create_stores _ _ laws). symmetry. exact Ef. }
    match type of H with
    | ?m s1 = _ =>
        assert (Hk : keeps (kept holds) m)
    end.
    { walk_with ltac:(first [ kept_leaf laws | apply kept_notify ]). }
    specialize (Hk s1 _ Hs1). rewrite H in Hk. exact Hk.
  - exfalso. eapply asked. symmetry. exact Ef.
  - discriminate.
Qed.

Lemma check_package_stores (mp : yaml) (idx : Source) (name : string)
    (s s' : state W) :
  check_package C g mp false idx name s = (Ok tt, s') ->
  forall vs version,
    versions idx name = Ok vs -> In version vs ->
    holds (world s') (name, version, url idx) = true.
Proof.
  unfold check_package, bind, try_except. intros H vs version Hv Hin.
  pose proof (extern_fst (get_package_versions C idx name)
                         (GetPackageVersions (url idx) name) s) as Ef.
  rewrite (fixed_versions _ _ _ _ fixed), Hv in Ef.
  destruct (extern (get_package_versions C idx name)
                   (GetPackageVersions (url idx) name) s) as [r s1].
  cbn [fst] in Ef. subst r. cbn [ret] in H.
  eapply (foreach_establishes
            (fun v st => holds (world st) (name, v, url idx) = true)); eauto.
  - intros x s0 s0' _. apply check_version_stores.
  - intros x y s0 Hx. apply (kept_check_version mp false idx name y s0). exact Hx.
Qed.

Lemma check_index_stores (mp : yaml) (names : option (list string)) (idx : Source)
    (s s' : state W) :
  check_index C g mp names false idx s = (Ok tt, s') ->
  forall cands name vs version,
    candidates_of packages names idx = Ok cands -> In name cands ->
    versions idx name = Ok vs -> In version vs ->
    holds (world s') (name, version, url idx) = true.
Proof.
  unfold check_index. unfold bind at 1. cbn [log emit].
  unfold bind at 1. intros H cands name vs version Hc Hn Hv Hin.
  match type of H with
  | context [candidates C names idx ?st] =>
      assert (Ec : fst (candidates C names idx st) = candidates_of packages names idx)
  end.
  { unfold candidates, candidates_of.
    destruct names as [[| n l] |]; try reflexivity;
      rewrite extern_fst; apply (fixed_packages _ _ _ _ fixed). }
  rewrite Hc in Ec.
  match type of H with
  | context [candidates C names idx ?st] =>
      destruct (candidates C names idx st) as [r s1]
  end.
  cbn [fst] in Ec. subst r.
  eapply (foreach_establishes
            (fun n st => forall vs v, versions idx n = Ok vs -> In v vs ->
                                      holds (world st) (n, v, url idx) = true)
            _ cands _ _ s1 s' H name Hn vs version Hv Hin).
  Unshelve.
  - cbv beta. intros x s0 s0' _ Hrun vs0 v0 Hv0 Hin0.
    eapply check_package_stores; eauto.
  - cbv beta. intros x y s0 Hx vs0 v0 Hv0 Hin0.
    apply (kept_check_package mp false idx y s0). eapply Hx; eauto.
Qed.

Lemma pass_stores (mp : yaml) (names : option (list string)) (s s' : state W) :
  package_releases_update C g mp names false s = (Ok tt, s') ->
  forall t, offered sources packages versions names t -> holds (world s') t = true.
Proof.
  unfold package_releases_update, bind. intros H t Ht.
  destruct Ht as (srcs & idx & cands & name & vs & version
                  & Hs & Hi & Hc & Hn & Hv & Hin & ->).
  pose proof (extern_fst (get_python_package_index_all C) (fun _ => IndexAll) s) as Ef.
  rewrite (fixed_sources _ _ _ _ fixed), Hs in Ef.
  destruct (extern (get_python_package_index_all C) (fun _ => IndexAll) s) as [r s1].
  cbn [fst] in Ef. subst r.
  eapply (foreach_establishes
            (fun i st => forall cands n vs v,
                 candidates_of packages names i = Ok cands -> In n cands ->
                 versions i n = Ok vs -> In v vs ->
                 holds (world st) (n, v, url i) = true)
            _ srcs _ _ s1 s' H idx Hi cands name vs version Hc Hn Hv Hin).
  Unshelve.
  - cbv beta. intros x s0 s0' _ Hrun c0 n0 vs0 v0 Hc0 Hn0 Hv0 Hin0.
    eapply check_index_stores; eauto.
  - cbv beta. intros x y s0 Hx c0 n0 vs0 v0 Hc0 Hn0 Hv0 Hin0.
    apply (kept_check_index mp names false y s0). eapply Hx; eauto.
Qed.

End Stores.

(** *** A pass over tuples the store holds *)

Variable names : option (list string).

Let T := offered sources packages versions names.

Lemma quiet_notify (mp : yaml) (idx : Source) (name version : string)
    (added : Entity * bool) :
  keeps (quiet holds T) (notify C g mp idx name version added).
Proof.
  unfold notify, release_notification.
  walk_with ltac:(first [ quiet_leaf laws
                        | apply keeps_notify_triggers; [preorder | intros ? ?];
                          unfold notify_trigger, deliver ]).
Qed.

Lemma quiet_check_version (mp : yaml) (ois : bool) (idx : Source) (name version : string) :
  T (name, version, url idx) ->
  keeps (quiet holds T) (check_version C g mp ois idx name version).
Proof.
  intros Ht s. split; [apply kept_check_version; exact laws |].
  intro Hall.
  destruct (create_known _ _ laws name version (url idx) ois (world s) (Hall _ Ht))
    as [entity He].
  unfold check_version. unfold bind at 1.
  pose proof (extern_fst
                (create_python_package_version_entity C name version (url idx) ois)
                (CreateEntity name version (url idx) ois) s) as Ef.
  pose proof (extern_registry
                (create_python_package_version_entity C name version (url idx) ois)
                (CreateEntity name version (url idx) ois) s) as Er.
  assert (Hk : kept holds s
                 (snd (extern
                         (create_python_package_version_entity C name version (url idx) ois)
                         (CreateEntity name version (url idx) ois) s))).
  { apply kept_extern. apply (create_keeps _ _ laws). }
  rewrite He in Ef.
  destruct (extern (create_python_package_version_entity C name version (url idx) ois)
                   (CreateEntity name version (url idx) ois) s) as [r s1].
  cbn [fst snd] in *. subst r. cbv beta iota zeta. cbn [snd negb].
  rewrite <- Er.
  match goal with
  | |- packages_added (registry (snd (?m s1))) = _ =>
      assert (Hq : keeps (quiet holds T) m)
  end.
  { walk_with ltac:(first [ quiet_leaf laws | apply quiet_notify ]). }
  apply (Hq s1). intros t Ht'. apply Hk. apply Hall. exact Ht'.
Qed.

Lemma quiet_engine (mp : yaml) (ois : bool) :
  keeps (quiet holds T) (package_releases_update C g mp names ois).
Proof.
  unfold package_releases_update.
  apply keeps_bind_ok with (Q := fun srcs => sources = Ok srcs); [preorder | | |].
  { quiet_leaf laws. }
  { intros s srcs H. rewrite extern_fst, (fixed_sources _ _ _ _ fixed) in H. exact H. }
  intros srcs Hs. apply keeps_foreach_in; [preorder |]. intros idx Hi.
  unfold check_index. apply keeps_bind; [preorder | quiet_leaf laws | intros _].
  apply keeps_bind_ok
    with (Q := fun cands => candidates_of packages names idx = Ok cands); [preorder | | |].
  { unfold candidates. destruct names as [[| n l] |];
      first [ quiet_leaf laws | apply keeps_ret; preorder ]. }
  { intros s cands H. rewrite <- H. unfold candidates, candidates_of.
    destruct names as [[| n l] |]; try reflexivity;
      rewrite extern_fst; symmetry; apply (fixed_packages _ _ _ _ fixed). }
  intros cands Hc. apply keeps_foreach_in; [preorder |]. intros name Hn.
  unfold check_package.
  apply keeps_bind_ok
    with (Q := fun r => forall vs, r = Some vs -> versions idx name = Ok vs);
    [preorder | | |].
  { walk_with ltac:(quiet_leaf laws). }
  { intros s r H vs ->. unfold try_except, bind in H.
    pose proof (extern_fst (get_package_versions C idx name)
                           (GetPackageVersions (url idx) name) s) as Ef.
    rewrite (fixed_versions _ _ _ _ fixed) in Ef.
    destruct (extern (get_package_versions C idx name)
                     (GetPackageVersions (url idx) name) s) as [[pv | e] s1];
      cbn [fst snd ret] in *.
    - inversion H; subst. symmetry. exact Ef.
    - destruct (is_Exception e); [| discriminate].
      destruct e; cbn in H; discriminate. }
  intros [vs |] Hr; [| apply keeps_ret; preorder].
  apply keeps_foreach_in; [preorder |]. intros version Hv.
  apply quiet_check_version.
  exists srcs, idx, cands, name, vs, version. repeat split; auto.
Qed.

End SecondPass.

(** C5.  Take a store that keeps what it holds and answers
    [existed_before = true] for what it holds, and a catalogue that does
    not change.  When a pass has completed, a second pass over the same
    candidates increments the "added" gauge not once: every create of the
    second pass finds its tuple in the store. *)
Theorem second_pass_adds_nothing :
  forall (W : Type) (C : Collab W) (g : Globals)
         (holds : W -> string * string * string -> bool)
         (sources : result (list Source))
         (packages : Source -> result (list string))
         (versions : Source -> string -> result (list string))
         (mp : yaml) (names : option (list string)) (s s1 : state W),
    StoreLaws C holds ->
    FixedCatalog C sources packages versions ->
    sentinel_only_if_asked C ->
    package_releases_update C g mp names false s = (Ok tt, s1) ->
    let s2 := snd (package_releases_update C g mp names false s1) in
    packages_added (registry s2) = packages_added (registry s1) /\
    exists evs, trace s2 = trace s1 ++ evs /\ count is_new evs = 0.
Proof.
  intros W C g holds sources packages versions mp names s s1 laws fixed asked H s2.
  assert (Hall : forall t, offered sources packages versions names t ->
                           holds (world s1) t = true).
  { eapply pass_stores; eauto. }
  destruct (quiet_engine C g holds laws sources packages versions fixed names mp false s1)
    as [_ Hq].
  specialize (Hq Hall). fold s2 in Hq. split; [exact Hq |].
  destruct (emits_engine C g false mp names s1) as (evs & Tr & _ & A).
  fold s2 in Tr, A. exists evs. split; [exact Tr |]. lia.
Qed.

(** ** What [release_notification] returns *)

Section Yields.

Context {W : Type}.

Lemma silent_lift {A : Type} (r : result A) : silent (lift (W:=W) r).
Proof. intro s. reflexivity. Qed.

Lemma silent_bind {A B : Type} (m : M W A) (k : A -> M W B) :
  silent m -> (forall a, silent (k a)) -> silent (bind m k).
Proof.
  intros Hm Hk s. unfold bind. specialize (Hm s).
  destruct (m s) as [[a | e] s1]; simpl in *; subst; auto. apply Hk.
Qed.

Lemma yields_lift {A : Type} (Q : result A -> list event -> Prop) (r : result A) :
  Q r [] -> yields Q (lift (W:=W) r).
Proof.
  intros H s. exists []. simpl. rewrite app_nil_r. auto.
Qed.

Lemma yields_emit (Q : result unit -> list event -> Prop) (ev : event) :
  Q (Ok tt) [ev] -> yields Q (emit (W:=W) ev).
Proof.
  intros H s. exists [ev]. simpl. auto.
Qed.

Lemma yields_extern {A : Type} (Q : result A -> list event -> Prop)
    (op : W -> result A * W) (ev : result A -> event) :
  (forall r, Q r [ev r]) -> yields Q (extern op ev).
Proof.
  intros H s. unfold extern. destruct (op (world s)) as [r w']. exists [ev r].
  simpl. auto.
Qed.

Lemma yields_bind {A B : Type} (Q1 : result A -> list event -> Prop)
    (Q2 : A -> result B -> list event -> Prop) (Q : result B -> list event -> Prop)
    (m : M W A) (k : A -> M W B) :
  yields Q1 m ->
  (forall a, yields (Q2 a) (k a)) ->
  (forall e evs, Q1 (Raise e) evs -> Q (Raise e) evs) ->
  (forall a evs1 r evs2, Q1 (Ok a) evs1 -> Q2 a r evs2 -> Q r (evs1 ++ evs2)) ->
  yields Q (bind m k).
Proof.
  intros Hm Hk Hr Hc s. unfold bind. destruct (Hm s) as (evs1 & T1 & H1).
  destruct (m s) as [[a | e] s1]; simpl in *.
  - destruct (Hk a s1) as (evs2 & T2 & H2). exists (evs1 ++ evs2).
    rewrite T2, T1, app_assoc. split; [reflexivity |]. eapply Hc; eauto.
  - exists evs1. auto.
Qed.

Lemma yields_after_silent {A B : Type} (Q : result B -> list event -> Prop)
    (m : M W A) (k : A -> M W B) :
  silent m ->
  (forall a, yields Q (k a)) ->
  (forall e, Q (Raise e) []) ->
  yields Q (bind m k).
Proof.
  intros Hm Hk Hr s. unfold bind. specialize (Hm s).
  destruct (m s) as [[a | e] s1]; simpl in *; subst s1.
  - apply Hk.
  - exists []. simpl. rewrite app_nil_r. auto.
Qed.

Lemma yields_try_except {A : Type} (Q1 : result A -> list event -> Prop)
    (Q2 : exn -> result A -> list event -> Prop) (Q : result A -> list event -> Prop)
    (m : M W A) (h : exn -> M W A) :
  yields Q1 m ->
  (forall e, yields (Q2 e) (h e)) ->
  (forall a evs, Q1 (Ok a) evs -> Q (Ok a) evs) ->
  (forall e evs, is_Exception e = false -> Q1 (Raise e) evs -> Q (Raise e) evs) ->
  (forall e evs1 r evs2,
      is_Exception e = true -> Q1 (Raise e) evs1 -> Q2 e r evs2 -> Q r (evs1 ++ evs2)) ->
  yields Q (try_except m h).
Proof.
  intros Hm Hh Ho Hb Hc s. unfold try_except. destruct (Hm s) as (evs1 & T1 & H1).
  destruct (m s) as [[a | e] s1]; simpl in *.
  - exists evs1. split; [exact T1 | apply Ho, H1].
  - destruct (is_Exception e) eqn:Ee.
    + destruct (Hh e s1) as (evs2 & T2 & H2). exists (evs1 ++ evs2).
      rewrite T2, T1, app_assoc. split; [reflexivity |]. eapply Hc; eauto.
    + exists evs1. split; [exact T1 | apply Hb; assumption].
Qed.

Lemma yields_lift_bind {A B : Type} (Q : result B -> list event -> Prop)
    (r : result A) (k : A -> M W B) :
  match r with
  | Ok a => yields Q (k a)
  | Raise e => Q (Raise e) []
  end ->
  yields Q (bind (lift r) k).
Proof.
  intros H s. unfold bind, lift. destruct r as [a | e].
  - apply H.
  - exists []. simpl. rewrite app_nil_r. auto.
Qed.

(** A log record, then [k]. *)
Lemma yields_log_then {B : Type} (Q : result B -> list event -> Prop)
    (lvl : level) (msg : message) (k : M W B) :
  yields (fun r evs => Q r (Log lvl msg :: evs)) k ->
  yields Q (log lvl msg ;; k).
Proof.
  intros H s. unfold bind, log, emit.
  destruct (H (mkState (world s) (registry s) (debug_enabled s)
                       (trace s ++ [Log lvl msg]))) as (evs & T & Hq).
  exists (Log lvl msg :: evs). simpl in *. rewrite T, <- app_assoc. auto.
Qed.

End Yields.

Section Returned.

Context {W : Type} (C : Collab W) (g : Globals).
Variables (name version index_url : string).

Lemma yields_deliver (trigger : yaml) :
  yields (fun r evs =>
            went_through r evs /\
            forall a, r = Ok a -> exists u, py_getitem trigger "url" = Ok u)
         (deliver C g trigger name version index_url).
Proof.
  unfold deliver.
  apply yields_lift_bind.
  destruct (py_getitem trigger "url") as [trigger_url | e];
    [| split; [reflexivity | discriminate]].
  apply yields_lift_bind.
  destruct (py_startswith trigger_url "https://") as [https | e];
    [| split; [reflexivity | discriminate]].
  assert (Hpost : forall kwargs,
             yields (fun r evs =>
                       went_through r evs /\
                       forall a : unit, r = Ok a ->
                                        exists u, Ok (A:=yaml) trigger_url = Ok u)
               (target <- lift (match trigger_url with
                                | YStr template =>
                                    expand_url C g template name version index_url
                                | _ => Raise (AttributeError
                                                "object has no attribute 'format'")
                                end) ;;
                let data := notification_data g name version index_url in
                status <- extern (requests_post C target data kwargs)
                                 (HttpPost target data kwargs) ;;
                lift (raise_for_status status))).
  { intro kwargs. apply yields_lift_bind.
    destruct (match trigger_url with
              | YStr template => expand_url C g template name version index_url
              | _ => Raise (AttributeError "object has no attribute 'format'")
              end) as [target | e]; [| split; [reflexivity | discriminate]].
    apply yields_bind
      with (Q1 := fun r evs =>
                    evs = [HttpPost target (notification_data g name version index_url)
                                    kwargs r])
           (Q2 := fun status r evs => evs = [] /\ r = raise_for_status status).
    - apply yields_extern. reflexivity.
    - intro status. apply yields_lift. auto.
    - intros e evs ->. split; [reflexivity | discriminate].
    - intros status evs1 r evs2 -> [-> ->]. split; [| eauto].
      unfold went_through. cbn. destruct (raise_for_status status); reflexivity. }
  destruct https.
  - unfold bind at 1.
    destruct (py_get trigger "tls_verify" (YBool true)) as [v | e].
    + intro s. apply (Hpost (Some v) s).
    + intro s. exists []. cbn. rewrite app_nil_r.
      split; [reflexivity |]. split; [reflexivity | discriminate].
  - intro s. apply (Hpost None s).
Qed.

Lemma yields_notify_trigger (b0 : bool) (trigger : yaml) :
  yields (returns_or b0) (notify_trigger C g name version index_url b0 trigger).
Proof.
  unfold notify_trigger.
  apply yields_log_then.
  apply yields_try_except
    with (Q1 := fun r evs =>
                  went_through r evs /\ forall b, r = Ok b -> b = true)
         (Q2 := fun _ r evs => existsb delivered evs = false /\ r = Ok b0).
  - apply yields_bind
      with (Q1 := fun r evs =>
                    went_through r evs /\
                    forall a, r = Ok a -> exists u, py_getitem trigger "url" = Ok u)
           (Q2 := fun _ r evs =>
                    existsb delivered evs = false /\
                    (forall b, r = Ok b -> b = true) /\
                    (forall e, r = Raise e -> py_getitem trigger "url" = Raise e)).
    + apply yields_deliver.
    + intros _. apply yields_lift_bind.
      destruct (py_getitem trigger "url") as [trigger_url | e].
      * apply yields_log_then. apply yields_lift.
        repeat split; [intros b Hb; inversion Hb; reflexivity | discriminate].
      * repeat split; [discriminate | intros e' He'; inversion He'; reflexivity].
    + intros e evs [H _]. split; [exact H | discriminate].
    + intros [] evs1 r evs2 [H1 Hu] (H2 & H3 & H4). split; [| exact H3].
      unfold went_through in *. rewrite existsb_app, H1, H2. simpl.
      destruct r as [b | e]; [reflexivity |].
      destruct (Hu tt eq_refl) as [u Hu']. rewrite (H4 e eq_refl) in Hu'. discriminate.
  - intro e. apply yields_log_then. apply yields_lift. auto.
  - intros a evs [H1 H2] b Hb. inversion Hb; subst.
    rewrite (H2 b eq_refl). unfold went_through in H1. cbn. rewrite H1.
    rewrite orb_true_r. reflexivity.
  - intros e evs _ _ b Hb. discriminate.
  - intros e evs1 r evs2 _ [H1 _] [H2 ->] b Hb. inversion Hb; subst.
    unfold went_through in H1. cbn. rewrite existsb_app, H1, H2, orb_false_r.
    reflexivity.
Qed.

Lemma yields_notify_triggers (triggers : list yaml) :
  forall b0,
    yields (returns_or b0) (notify_triggers C g name version index_url b0 triggers).
Proof.
  induction triggers as [| t l IH]; intro b0; simpl.
  - apply yields_lift. intros b Hb. inversion Hb. rewrite orb_false_r. reflexivity.
  - apply yields_bind with (Q1 := returns_or b0) (Q2 := fun b1 => returns_or b1).
    + apply yields_notify_trigger.
    + intro b1. apply IH.
    + intros e evs _ b Hb. discriminate.
    + intros b1 evs1 r evs2 H1 H2 b Hb.
      rewrite existsb_app, orb_assoc, <- (H1 b1 eq_refl). apply H2, Hb.
Qed.

(** X1.  [release_notification] returns [True] exactly when one of the
    deliveries it made went through: a POST that returned with a status
    that [raise_for_status] accepts. *)
Lemma release_notification_returns (mp : yaml) (s : state W) :
  let out := release_notification C g mp name version index_url s in
  exists evs,
    trace (snd out) = trace s ++ evs /\
    forall b, fst out = Ok b -> b = existsb delivered evs.
Proof.
  assert (H : yields (returns_or false)
                     (release_notification C g mp name version index_url)).
  { unfold release_notification. apply yields_lift_bind.
    destruct (triggers_of mp name) as [triggers | e].
    - apply yields_notify_triggers.
    - intros b Hb. discriminate. }
  exact (H s).
Qed.

End Returned.

(** ** The candidates of an index *)

(** With a non-empty list of package names, given or taken from the
    store's catalogue, the candidates of every index are that list, and
    the index is not asked for its packages. *)
Lemma names_are_the_candidates {W : Type} (C : Collab W) (n : string) (l : list string)
    (idx : Source) (s : state W) :
  candidates C (Some (n :: l)) idx s = (Ok (n :: l), s).
Proof. reflexivity. Qed.

(** With no list, or an empty one, the candidates are what the index
    itself lists. *)
Lemma no_names_ask_the_index {W : Type} (C : Collab W) (names : option (list string))
    (idx : Source) (s : state W) :
  list_truthy names = false ->
  fst (candidates C names idx s) = fst (get_packages C idx (world s)).
Proof.
  intro H. destruct names as [[| n l] |]; try discriminate;
    unfold candidates; apply extern_fst.
Qed.

(** ** Runs on the concrete world *)

Section Examples.

Import Sim.

Let C := collab catalog_A.
Let hook := widget_config "http://hook/{package_name}/{package_version}".
Let both := [("widget", "1.0", index_A); ("widget", "1.1", index_A)].
Let data (version : string) :=
  [("package_name", "widget"); ("package_version", version);
   ("index_url", index_A); ("thoth_deployment_name", "test")].

(** The first scenario of the specification: nothing known, two versions
    hosted, a trigger that succeeds. *)
Example fresh_store_run :
  let out := package_releases_update C globals hook (Some ["widget"]) false
               (initial_state (widget_world [] 200)) in
  fst out = Ok tt /\
  registry (snd out) = mkRegistry 2 2 0 /\
  store (world (snd out)) = both /\
  count is_post (trace (snd out)) = 2.
Proof. vm_compute. auto. Qed.

(** C1.  The store already holds both versions of widget and a trigger is
    configured for it.  Both creates answer [existed_before = true], and
    yet [release_notification] is called for both: two deliveries are made
    and the "notified" gauge reaches 2. *)
Theorem known_release_is_notified_again :
  let out := package_releases_update C globals hook (Some ["widget"]) false
               (initial_state (widget_world both 200)) in
  fst out = Ok tt /\
  In (CreateEntity "widget" "1.0" index_A false
        (Ok (Some (mkEntity "widget" "1.0", true)))) (trace (snd out)) /\
  In (HttpPost "http://hook/widget/1.0" (data "1.0") None (Ok 200%Z)) (trace (snd out)) /\
  count is_new (trace (snd out)) = 0 /\
  count is_post (trace (snd out)) = 2 /\
  registry (snd out) = mkRegistry 0 2 0.
Proof. vm_compute. intuition. Qed.

(** C2.  Nothing is known and the hook answers every delivery with status
    500: [release_notification] returns [False] for each new version, and
    the "notified" gauge is incremented all the same.  It is also
    incremented when the configuration has no trigger for the package and
    no delivery is attempted at all. *)
Theorem notified_counted_without_success :
  let s := initial_state (widget_world [] 500) in
  let out := package_releases_update C globals hook (Some ["widget"]) false s in
  let other := YMap [(YStr "gadget", YMap [(YStr "triggers", YList [])])] in
  let out' := package_releases_update C globals other (Some ["widget"]) false s in
  fst (release_notification C globals hook "widget" "1.0" index_A s) = Ok false /\
  fst (release_notification C globals hook "widget" "1.1" index_A s) = Ok false /\
  count is_new (trace (snd out)) = 2 /\
  packages_notified (registry (snd out)) = 2 /\
  count is_post (trace (snd out')) = 0 /\
  packages_notified (registry (snd out')) = 2.
Proof. vm_compute. intuition. Qed.

(** C3.  The run asks for only-if-package-seen and the store knows no
    package: the catalogue of known names is empty, and instead of
    checking no package the run walks the catalogue of the index and
    creates entries for what it hosts. *)
Theorem only_if_seen_with_empty_catalog_walks_index :
  let a := mkArgs false None true None None in
  let w := widget_world [] 200 in
  let out := main C [("THOTH_DEPLOYMENT_NAME", "test")] a (initial_state w) in
  fst (get_python_package_version_entities_names_all C w) = Ok [] /\
  fst out = Ok tt /\
  In (GetPackages index_A) (trace (snd out)) /\
  In (CreateEntity "widget" "1.0" index_A false
        (Ok (Some (mkEntity "widget" "1.0", false)))) (trace (snd out)) /\
  packages_added (registry (snd out)) = 2 /\
  store (world (snd out)) = both.
Proof. vm_compute. intuition. Qed.

(** C7.  The trigger sets [tls_verify: false] and its template
    [{index_url}/hook] expands to the [https] URL
    [https://pypi.org/simple/hook]: the one POST of the call is made to
    that URL without the [verify] keyword, so the setting of the trigger
    is dropped and the request is verified.  The same trigger with the
    expanded URL written out as its template is delivered to the same URL
    with [verify=False], as line 111 has it for an [https] request. *)
Theorem verify_dropped_for_expanded_https_url :
  let trigger template := YMap [(YStr "url", YStr template);
                                (YStr "tls_verify", YBool false)] in
  let cfg template := YMap [(YStr "widget",
                        YMap [(YStr "triggers", YList [trigger template])])] in
  let s := initial_state (widget_world [] 200) in
  let out := release_notification C globals (cfg "{index_url}/hook")
               "widget" "1.0" index_A s in
  let out' := release_notification C globals (cfg "https://pypi.org/simple/hook")
                "widget" "1.0" index_A s in
  py_get (trigger "{index_url}/hook") "tls_verify" (YBool true) = Ok (YBool false) /\
  String.prefix "https://" "https://pypi.org/simple/hook" = true /\
  fst out = Ok true /\
  trace (snd out) =
    [Log DEBUG (MsgTriggering "widget" "1.0");
     HttpPost "https://pypi.org/simple/hook" (data "1.0") None (Ok 200%Z);
     Log INFO (MsgTriggered "widget" "1.0" (YStr "{index_url}/hook"))] /\
  fst out' = Ok true /\
  trace (snd out') =
    [Log DEBUG (MsgTriggering "widget" "1.0");
     HttpPost "https://pypi.org/simple/hook" (data "1.0") (Some (YBool false)) (Ok 200%Z);
     Log INFO (MsgTriggered "widget" "1.0" (YStr "https://pypi.org/simple/hook"))].
Proof. vm_compute. intuition. Qed.

(** C8 fails as stated: with no push gateway configured the run reaches
    the pass, completes it, and pushes nothing. *)
Lemma no_push_without_gateway :
  let a := mkArgs false None false (Some "names.yaml") (Some "$.packages") in
  let out := main C [("THOTH_DEPLOYMENT_NAME", "test")] a
               (initial_state (widget_world [] 200)) in
  fst out = Ok tt /\
  packages_added (registry (snd out)) = 2 /\
  count is_push (trace (snd out)) <> 1.
Proof. vm_compute. intuition discriminate. Qed.

End Examples.

(** ** The concrete world meets the contracts *)

Section SimLaws.

Import Sim.

Variable indices : Catalog.

Lemma tuple_eqb_refl (t : string * string * string) : tuple_eqb t t = true.
Proof.
  destruct t as [[n v] u]. simpl. rewrite !String.eqb_refl. reflexivity.
Qed.

Lemma sim_sentinel_only_if_asked : sentinel_only_if_asked (collab indices).
Proof.
  intros name version index_url w. simpl. unfold sim_create.
  destruct (holds w (name, version, index_url)); simpl; discriminate.
Qed.

Lemma sim_store_laws : StoreLaws (collab indices) holds.
Proof.
  split; simpl; auto.
  - intros name version index_url ois w H. unfold sim_create. rewrite H.
    eexists. reflexivity.
  - intros name version index_url ois w entity existed. unfold sim_create.
    destruct (holds w (name, version, index_url)) eqn:Hh; simpl; [auto |].
    destruct (ois && negb (seen w name)); simpl; [discriminate |].
    intros _. unfold holds, with_store. cbn [store snd]. rewrite existsb_app.
    cbn [existsb]. rewrite tuple_eqb_refl. cbn [orb]. apply orb_true_r.
  - intros name version index_url ois w t H. unfold sim_create.
    destruct (holds w (name, version, index_url)); simpl; [exact H |].
    destruct (ois && negb (seen w name)); simpl; [exact H |].
    unfold holds, with_store in *. cbn [store snd]. rewrite existsb_app, H. reflexivity.
Qed.

Lemma sim_fixed_catalog :
  FixedCatalog (collab indices) (catalog_sources indices) (catalog_packages indices)
               (catalog_versions indices).
Proof.
  split; reflexivity.
Qed.

End SimLaws.

(** ** The theorems at work on the concrete world *)

Section Witnesses.

Import Sim.

Let C := collab catalog_A.
Let w0 := widget_world [] 200.

Lemma second_pass_adds_nothing_witness :
  let s := initial_state w0 in
  let s1 := snd (package_releases_update C globals YNull (Some ["widget"]) false s) in
  let s2 := snd (package_releases_update C globals YNull (Some ["widget"]) false s1) in
  packages_added (registry s1) = 2 /\
  packages_added (registry s2) = packages_added (registry s1) /\
  exists evs, trace s2 = trace s1 ++ evs /\ count is_new evs = 0.
Proof.
  intros s s1 s2. split; [reflexivity |].
  apply (second_pass_adds_nothing World C globals holds
           (catalog_sources catalog_A) (catalog_packages catalog_A)
           (catalog_versions catalog_A) YNull (Some ["widget"]) s s1
           (sim_store_laws catalog_A) (sim_fixed_catalog catalog_A)
           (sim_sentinel_only_if_asked catalog_A)).
  vm_compute. reflexivity.
Defined.

Lemma failed_package_is_skipped_witness :
  let idx := mkSource index_A in
  let s := initial_state w0 in
  let s2 := mkState w0 (registry s) false
              [GetPackageVersions index_A "ghost" (Raise (NotFound "ghost"));
               Log DEBUG (MsgNoVersionsFound "ghost" index_A (NotFound "ghost"))] in
  fst (get_package_versions C idx "ghost" w0) = Raise (NotFound "ghost") /\
  check_package C globals YNull false idx "ghost" s = (Ok tt, s2) /\
  foreach ["ghost"; "widget"] (check_package C globals YNull false idx) s =
    foreach ["widget"] (check_package C globals YNull false idx) s2.
Proof.
  intros idx s s2. split; [reflexivity |].
  destruct (failed_package_is_skipped World C globals YNull false idx [] ["widget"]
              "ghost" s s (NotFound "ghost") eq_refl eq_refl eq_refl)
    as (H1 & H2 & _).
  split; [exact H1 | exact H2].
Defined.

Lemma config_errors_exit_before_io_witness :
  let a := mkArgs false None false (Some "empty.yaml") (Some "$.packages") in
  let out := main C [("THOTH_DEPLOYMENT_NAME", "test")] a (initial_state w0) in
  config_error C a w0 /\
  exit_status (fst out) <> 0%Z /\
  Forall (fun ev => local_event ev = true) (trace (snd out)).
Proof.
  intros a out.
  assert (H : config_error C a w0).
  { right. right. right. exists "empty.yaml". repeat split.
    exists "$.packages", "packages: []", (YMap [(YStr "packages", YList [])]), [YList []].
    repeat split. }
  split; [exact H |].
  exact (config_errors_exit_before_io World C [("THOTH_DEPLOYMENT_NAME", "test")] a w0 H).
Defined.

Lemma cli_never_forwards_only_if_seen_witness :
  let a := mkArgs false None true None None in
  let s := initial_state w0 in
  let s' := snd (cli C globals a s) in
  sentinel_only_if_asked C /\
  exists evs,
    trace s' = trace s ++ evs /\
    (forall name version index_url ois res,
        In (CreateEntity name version index_url ois res) evs -> ois = false) /\
    (forall lvl name version index_url,
        ~ In (Log lvl (MsgNotAdded name version index_url)) evs).
Proof.
  intros a s s'. split; [apply sim_sentinel_only_if_asked |].
  destruct (cli_never_forwards_only_if_seen World C globals a s) as (evs & T & H1 & H2).
  exists evs. split; [exact T |]. split; [exact H1 |].
  apply H2. apply sim_sentinel_only_if_asked.
Defined.

Lemma metrics_pushed_once_when_configured_witness :
  let g := mkGlobals [("THOTH_DEPLOYMENT_NAME", "test");
                      ("PROMETHEUS_PUSHGATEWAY_URL", "http://gateway")]
                     (Some "http://gateway") "test" in
  let w := mkWorld [] [] 200 false 0 in
  let s := initial_state w in
  let s1 := snd (timed C (package_releases_update C g YNull None false) s) in
  let out := run_pass C g YNull None s in
  exists tail,
    trace (snd out) =
      trace s1 ++ [Log INFO (MsgSubmittingMetrics "http://gateway");
                   PushToGateway "http://gateway" "package-release" (registry s1)] ++ tail /\
    count is_push tail = 0 /\
    tail = [Log ERROR (MsgPushFailed (PyException "URLError" "http://gateway"))] /\
    fst out = Ok tt.
Proof.
  intros g w s s1 out.
  destruct (metrics_pushed_once_when_configured World C g YNull None s) as (_ & H & _).
  destruct (H "http://gateway" eq_refl) as (tail & T & N & R); [discriminate |].
  exists tail. split; [exact T |]. split; [exact N |]. exact R.
Defined.

End Witnesses.

(** ** More on the notification dispatcher *)

Lemma yields_weaken {W A : Type} (Q Q' : result A -> list event -> Prop) (m : M W A) :
  (forall r evs, Q r evs -> Q' r evs) -> yields Q m -> yields Q' m.
Proof.
  intros H Hm s. destruct (Hm s) as (evs & T & Hq). exists evs. auto.
Qed.

Lemma raise_for_status_exception (status : Z) (e : exn) :
  raise_for_status status = Raise e -> is_Exception e = true.
Proof.
  unfold raise_for_status.
  destruct ((400 <=? status)%Z && (status <? 600)%Z); intro H; inversion H; reflexivity.
Qed.

Section Shape.

Context {W : Type} (C : Collab W) (g : Globals).
Variables (name version index_url : string).

Lemma yields_deliver_shape (trigger : yaml) :
  yields (deliver_shape g name version index_url)
         (deliver C g trigger name version index_url).
Proof.
  unfold deliver.
  apply yields_lift_bind.
  destruct (py_getitem trigger "url") as [trigger_url | e]; [| left; eauto].
  apply yields_lift_bind.
  destruct (py_startswith trigger_url "https://") as [https | e]; [| left; eauto].
  assert (Hpost : forall kwargs,
             yields (deliver_shape g name version index_url)
               (target <- lift (match trigger_url with
                                | YStr template =>
                                    expand_url C g template name version index_url
                                | _ => Raise (AttributeError
                                                "object has no attribute 'format'")
                                end) ;;
                let data := notification_data g name version index_url in
                status <- extern (requests_post C target data kwargs)
                                 (HttpPost target data kwargs) ;;
                lift (raise_for_status status))).
  { intro kwargs. apply yields_lift_bind.
    destruct (match trigger_url with
              | YStr template => expand_url C g template name version index_url
              | _ => Raise (AttributeError "object has no attribute 'format'")
              end) as [target | e]; [| left; eauto].
    apply yields_bind
      with (Q1 := fun r evs =>
                    evs = [HttpPost target (notification_data g name version index_url)
                                    kwargs r])
           (Q2 := fun status r evs => evs = [] /\ r = raise_for_status status).
    - apply yields_extern. reflexivity.
    - intro status. apply yields_lift. auto.
    - intros e evs ->. right. eauto.
    - intros status evs1 r evs2 -> [-> ->]. right. simpl. eauto. }
  destruct https.
  - unfold bind at 1.
    destruct (py_get trigger "tls_verify" (YBool true)) as [v | e].
    + intro s. apply (Hpost (Some v) s).
    + intro s. exists []. cbn. rewrite app_nil_r. split; [reflexivity |]. left. eauto.
  - intro s. apply (Hpost None s).
Qed.

(** One round of the trigger loop: the "triggering" record, what
    [deliver] left, and at most one closing record.  Nothing that is an
    [Exception] leaves the round. *)
Lemma yields_notify_trigger_shape (b0 : bool) (trigger : yaml) :
  yields (fun r evs =>
            exists dev tail rd,
              evs = Log DEBUG (MsgTriggering name version) :: dev ++ tail /\
              deliver_shape g name version index_url rd dev /\
              Forall (fun ev => is_post ev = false /\ is_triggering ev = false) tail /\
              match r with
              | Ok _ => True
              | Raise e => is_Exception e = false
              end)
         (notify_trigger C g name version index_url b0 trigger).
Proof.
  unfold notify_trigger. apply yields_log_then.
  apply yields_try_except
    with (Q1 := fun r evs =>
                  exists dev tail rd,
                    evs = dev ++ tail /\
                    deliver_shape g name version index_url rd dev /\
                    Forall (fun ev => is_post ev = false /\ is_triggering ev = false) tail)
         (Q2 := fun _ r evs =>
                  Forall (fun ev => is_post ev = false /\ is_triggering ev = false) evs /\
                  exists b, r = Ok b).
  - apply yields_bind
      with (Q1 := deliver_shape g name version index_url)
           (Q2 := fun _ r evs =>
                    Forall (fun ev => is_post ev = false /\ is_triggering ev = false) evs).
    + apply yields_deliver_shape.
    + intros _. apply yields_lift_bind.
      destruct (py_getitem trigger "url") as [trigger_url | e]; [| constructor].
      apply yields_log_then. apply yields_lift. repeat constructor.
    + intros e evs H. exists evs, [], (Raise e). rewrite app_nil_r. auto.
    + intros a evs1 r evs2 H1 H2. exists evs1, evs2, (Ok a). auto.
  - intro e. apply yields_log_then. apply yields_lift.
    split; [repeat constructor | eauto].
  - intros a evs (dev & tail & rd & -> & Hd & Ht). exists dev, tail, rd. auto.
  - intros e evs He (dev & tail & rd & -> & Hd & Ht). exists dev, tail, rd. auto.
  - intros e evs1 r evs2 He (dev & tail & rd & -> & Hd & Ht) [H2 [b ->]].
    exists dev, (tail ++ evs2), rd. rewrite app_assoc. repeat split; auto.
    apply Forall_app. auto.
Qed.

End Shape.

Lemma count_cons (f : event -> bool) (ev : event) (l : list event) :
  count f (ev :: l) = (if f ev then 1 else 0) + count f l.
Proof.
  unfold count. simpl. destruct (f ev); reflexivity.
Qed.

Lemma count_none (f : event -> bool) (l : list event) :
  Forall (fun ev => f ev = false) l -> count f l = 0.
Proof.
  induction 1 as [| ev l H _ IH]; [reflexivity |].
  rewrite count_cons, H, IH. reflexivity.
Qed.

Section Rounds.

Context {W : Type} (C : Collab W) (g : Globals).
Variables (name version index_url : string).




End Rounds.


(** ** Properties of the records of a run *)

Section Grows.

Context {W : Type} (Q : list event -> Prop) {HQ : AppClosed Q}.

#[export] Instance grows_preorder : PreOrder (grows (W:=W) Q).
Proof.
  split.
  - intro s. exists []. rewrite app_nil_r. split; [reflexivity | apply closed_nil].
  - intros s0 s1 s2 (e1 & T1 & Q1) (e2 & T2 & Q2). exists (e1 ++ e2).
    rewrite T2, T1, app_assoc. split; [reflexivity | apply closed_app; assumption].
Qed.

Lemma grows_emit (ev : event) : Q [ev] -> keeps (grows Q) (emit (W:=W) ev).
Proof.
  intros H s. exists [ev]. simpl. auto.
Qed.

Lemma grows_extern {A : Type} (op : W -> result A * W) (ev : result A -> event) :
  (forall r, Q [ev r]) -> keeps (grows Q) (extern op ev).
Proof.
  intros H s. unfold extern. destruct (op (world s)) as [r w']. exists [ev r].
  simpl. auto.
Qed.

Lemma grows_update_registry (f : Registry -> Registry) :
  keeps (grows Q) (update_registry (W:=W) f).
Proof.
  intro s. exists []. simpl. rewrite app_nil_r. split; [reflexivity | apply closed_nil].
Qed.

Lemma grows_set_debug : keeps (grows Q) (set_debug (W:=W)).
Proof.
  intro s. exists []. simpl. rewrite app_nil_r. split; [reflexivity | apply closed_nil].
Qed.

Lemma grows_now (C : Collab W) : keeps (grows Q) (now C).
Proof.
  intro s. unfold now. destruct (default_timer C (world s)) as [t w'].
  exists []. simpl. rewrite app_nil_r. split; [reflexivity | apply closed_nil].
Qed.

Lemma grows_of_yields {A : Type} (m : M W A) :
  yields (fun _ evs => Q evs) m -> keeps (grows Q) m.
Proof.
  intros H s. exact (H s).
Qed.

End Grows.

#[export] Instance forall_closed (P : event -> Prop) : AppClosed (Forall P).
Proof.
  split; [constructor | intros a b Ha Hb; apply Forall_app; auto].
Qed.

Lemma grows_weaken {W : Type} (Q Q' : list event -> Prop) (s s' : state W) :
  (forall evs, Q evs -> Q' evs) -> grows Q s s' -> grows Q' s s'.
Proof.
  intros H (evs & T & Hq). exists evs. auto.
Qed.

(** The leaves of a walk for a property of each record. *)
Ltac each_leaf :=
  first [ apply grows_emit; first [typeclasses eauto | repeat constructor]
        | apply grows_extern; first [typeclasses eauto | intros ?; repeat constructor]
        | apply grows_update_registry; typeclasses eauto
        | apply grows_set_debug; typeclasses eauto
        | apply grows_now; typeclasses eauto ].

Section Payload.

Context {W : Type} (C : Collab W) (g : Globals).

Lemma release_notification_carries (mp : yaml) (name version index_url : string) :
  keeps (grows (Forall (carries (notification_data g name version index_url))))
        (release_notification C g mp name version index_url).
Proof.
  unfold release_notification.
  apply keeps_bind; [preorder | apply keeps_lift; preorder | intro triggers].
  apply keeps_notify_triggers; [preorder |]. intros b t.
  apply grows_of_yields.
  eapply yields_weaken; [| apply yields_notify_trigger_shape].
  cbn beta. intros r evs (dev & tail & rd & -> & Hd & Ht & _).
  constructor; [exact I |]. apply Forall_app. split.
  - destruct Hd as [[-> _] | (target & verify & res & -> & _)]; repeat constructor.
  - eapply Forall_impl; [| exact Ht]. intros ev [Hp _].
    destruct ev; try exact I; discriminate.
Qed.

Lemma notify_carries (mp : yaml) (idx : Source) (name version : string)
    (added : Entity * bool) :
  keeps (grows (Forall (carries (notification_data g (package_name (fst added))
                                   (package_version (fst added)) (url idx)))))
        (notify C g mp idx name version added).
Proof.
  unfold notify.
  walk_with ltac:(first [ apply release_notification_carries | each_leaf ]).
Qed.

End Payload.

(** ** What a POST of the pass is about *)

Section Backed.

Context {W : Type} (C : Collab W) (g : Globals).

Lemma backed_quiet (evs : list event) :
  Forall (fun ev => is_post ev = false) evs -> backed g evs.
Proof.
  intros H pre target data verify res post E. exfalso.
  rewrite Forall_forall in H.
  assert (Hin : In (HttpPost target data verify res) evs).
  { rewrite E. apply in_or_app. right. left. reflexivity. }
  specialize (H _ Hin). discriminate.
Qed.

#[export] Instance backed_closed : AppClosed (backed g).
Proof.
  split.
  - apply backed_quiet. constructor.
  - intros a b Ha Hb pre target data verify res post E.
    destruct (app_eq_app _ _ _ _ E) as [l [[E1 E2] | [E1 E2]]].
    + destruct l as [| ev l].
      * rewrite app_nil_r in E1. cbn in E2. subst.
        destruct (Hb [] _ _ _ _ _ eq_refl) as (n & v & u & o & en & ex & [] & _).
      * cbn in E2. inversion E2; subst. apply (Ha _ _ _ _ _ _ eq_refl).
    + subst pre.
      destruct (Hb _ _ _ _ _ _ E2) as (n & v & u & o & en & ex & Hin & Hd).
      exists n, v, u, o, en, ex. split; [apply in_or_app; right; exact Hin | exact Hd].
Qed.

(** A create that returned an entity, some records that are no POST, then
    POSTs that carry the entity. *)
Lemma backed_block (name version index_url : string) (ois : bool) (entity : Entity)
    (existed : bool) (logs posts : list event) :
  Forall (fun ev => is_post ev = false) logs ->
  Forall (carries (notification_data g (package_name entity) (package_version entity)
                                     index_url)) posts ->
  backed g (CreateEntity name version index_url ois (Ok (Some (entity, existed)))
              :: logs ++ posts).
Proof.
  intros Hl Hp pre target data verify res post E.
  exists name, version, index_url, ois, entity, existed.
  destruct pre as [| ev pre]; [discriminate |].
  cbn in E. inversion E; subst ev. split; [left; reflexivity |].
  destruct (app_eq_app _ _ _ _ H1) as [l [[E1 E2] | [E1 E2]]].
  - destruct l as [| ev l].
    + cbn in E2. rewrite <- E2 in Hp. inversion Hp; subst. assumption.
    + exfalso. cbn in E2. inversion E2; subst.
      rewrite Forall_forall in Hl.
      assert (Hin : In (HttpPost target data verify res)
                       (pre ++ HttpPost target data verify res :: l)).
      { apply in_or_app. right. left. reflexivity. }
      specialize (Hl _ Hin). discriminate.
  - rewrite E2 in Hp. apply Forall_app in Hp. destruct Hp as [_ Hp].
    inversion Hp; subst. assumption.
Qed.

Lemma check_version_backed (mp : yaml) (ois : bool) (idx : Source)
    (name version : string) :
  keeps (grows (backed g)) (check_version C g mp ois idx name version).
Proof.
  intro s. unfold check_version. unfold bind at 1. unfold extern.
  destruct (create_python_package_version_entity C name version (url idx) ois (world s))
    as [[[[entity existed] |] | e] w'].
  - cbv beta iota zeta. cbn [snd].
    set (s1 := mkState w' (registry s) (debug_enabled s) _).
    assert (Hlogs : grows (Forall (fun ev => is_post ev = false)) s1
                      (snd ((if negb existed
                             then log INFO (MsgNewRelease name version (url idx)) ;;
                                  inc_added
                             else log DEBUG (MsgAlreadyPresent name version (url idx)))
                              s1))).
    { assert (Hk : keeps (grows (Forall (fun ev => is_post ev = false)))
                     (if negb existed
                      then log (W:=W) INFO (MsgNewRelease name version (url idx)) ;;
                           inc_added
                      else log DEBUG (MsgAlreadyPresent name version (url idx)))).
      { walk_with each_leaf. }
      apply Hk. }
    unfold bind at 1.
    destruct ((if negb existed
               then log INFO (MsgNewRelease name version (url idx)) ;; inc_added
               else log DEBUG (MsgAlreadyPresent name version (url idx))) s1)
      as [[u | e] s2]; cbn [snd] in *.
    + destruct Hlogs as (logs & T2 & Hl).
      destruct (notify_carries C g mp idx name version (entity, existed) s2)
        as (posts & T3 & Hp).
      exists (CreateEntity name version (url idx) ois (Ok (Some (entity, existed)))
                :: logs ++ posts).
      split.
      * rewrite T3, T2. subst s1. cbn [trace]. rewrite <- !app_assoc. reflexivity.
      * apply backed_block; assumption.
    + destruct Hlogs as (logs & T2 & Hl).
      exists (CreateEntity name version (url idx) ois (Ok (Some (entity, existed)))
                :: logs ++ []).
      split.
      * rewrite T2. subst s1. cbn [trace]. rewrite app_nil_r, <- !app_assoc. reflexivity.
      * apply backed_block; [assumption | constructor].
  - cbn. eexists [_; _]. rewrite <- app_assoc. split; [reflexivity |].
    apply backed_quiet. repeat constructor.
  - cbn. eexists [_]. split; [reflexivity |]. apply backed_quiet. repeat constructor.
Qed.

End Backed.

Ltac backed_leaf :=
  first [ apply grows_emit; first [typeclasses eauto | apply backed_quiet; repeat constructor]
        | apply grows_extern;
          first [typeclasses eauto | intros ?; apply backed_quiet; repeat constructor] ].

(** X3.  In a pass, every POST comes after a store create that returned
    an entity, and its payload is that entity's name and version, the URL
    of the index the create was made for, and the deployment name. *)
Theorem every_post_carries_a_created_entity :
  forall (W : Type) (C : Collab W) (g : Globals) (mp : yaml)
         (names : option (list string)) (ois : bool) (s : state W),
    let s' := snd (package_releases_update C g mp names ois s) in
    exists evs,
      trace s' = trace s ++ evs /\
      forall pre target data verify res post,
        evs = pre ++ HttpPost target data verify res :: post ->
        exists name version index_url flag entity existed,
          In (CreateEntity name version index_url flag (Ok (Some (entity, existed)))) pre /\
          data = [("package_name", package_name entity);
                  ("package_version", package_version entity);
                  ("index_url", index_url);
                  ("thoth_deployment_name", _THOTH_DEPLOYMENT_NAME g)].
Proof.
  intros W C g mp names ois s s'.
  assert (H : keeps (grows (backed g)) (package_releases_update C g mp names ois)).
  { unfold package_releases_update, check_index, candidates, check_package.
    walk_with ltac:(first [ apply check_version_backed | backed_leaf ]). }
  exact (H s).
Qed.

(** ** A pass without a monitoring configuration *)

Section Fixes.

Context {W : Type} (f : Registry -> nat).

#[export] Instance fixes_preorder : PreOrder (fixes (W:=W) f).
Proof.
  split.
  - intro s. reflexivity.
  - intros s0 s1 s2 H1 H2. unfold fixes in *. congruence.
Qed.

Lemma fixes_emit (ev : event) : keeps (fixes f) (emit (W:=W) ev).
Proof. intro s. reflexivity. Qed.

Lemma fixes_extern {A : Type} (op : W -> result A * W) (ev : result A -> event) :
  keeps (fixes f) (extern op ev).
Proof.
  intro s. unfold fixes. rewrite extern_registry. reflexivity.
Qed.

Lemma fixes_update_registry (h : Registry -> Registry) :
  (forall r, f (h r) = f r) -> keeps (fixes f) (update_registry (W:=W) h).
Proof.
  intros H s. unfold fixes. simpl. apply H.
Qed.

End Fixes.

Ltac fixes_leaf :=
  first [ apply fixes_emit | apply fixes_extern
        | apply fixes_update_registry; intros ?; reflexivity ].

Section NoConfig.

Context {W : Type} (C : Collab W) (g : Globals).
Variable mp : yaml.
Hypothesis no_config : truthy mp = false.

Lemma notify_without_config (idx : Source) (name version : string)
    (added : Entity * bool) (s : state W) :
  notify C g mp idx name version added s = (Ok tt, s).
Proof.
  unfold notify. rewrite no_config, andb_false_r. reflexivity.
Qed.

Lemma engine_without_config_posts (names : option (list string)) (ois : bool) :
  keeps (grows (Forall (fun ev => is_post ev = false)))
        (package_releases_update C g mp names ois).
Proof.
  unfold package_releases_update, check_index, candidates, check_package, check_version.
  walk_with ltac:(first [ each_leaf
                        | match goal with
                          | |- keeps _ (notify _ _ _ _ _ _ _) =>
                              intro s; rewrite notify_without_config; reflexivity
                          end ]).
Qed.

Lemma engine_without_config_notified (names : option (list string)) (ois : bool) :
  keeps (fixes packages_notified) (package_releases_update C g mp names ois).
Proof.
  unfold package_releases_update, check_index, candidates, check_package, check_version.
  walk_with ltac:(first [ fixes_leaf
                        | match goal with
                          | |- keeps _ (notify _ _ _ _ _ _ _) =>
                              intro s; rewrite notify_without_config; reflexivity
                          end ]).
Qed.

End NoConfig.

(** X4.  With no monitoring configuration, or an empty one, a pass makes
    no POST and leaves the "notified" gauge where it was, whatever the
    store answers. *)
Theorem no_configuration_no_notification :
  forall (W : Type) (C : Collab W) (g : Globals) (mp : yaml)
         (names : option (list string)) (ois : bool) (s : state W),
    truthy mp = false ->
    let s' := snd (package_releases_update C g mp names ois s) in
    packages_notified (registry s') = packages_notified (registry s) /\
    exists evs, trace s' = trace s ++ evs /\ count is_post evs = 0.
Proof.
  intros W C g mp names ois s Hmp s'. split.
  - apply (engine_without_config_notified C g mp Hmp names ois s).
  - destruct (engine_without_config_posts C g mp Hmp names ois s) as (evs & T & F).
    exists evs. split; [exact T | apply count_none; exact F].
Qed.

(** ** What the store is asked to create *)

Section Supported.

Variable Sup : list event -> event -> Prop.
Hypothesis Sup_mono : forall a pre ev, Sup pre ev -> Sup (a ++ pre) ev.

Lemma supported_closed : AppClosed (supported Sup).
Proof.
  split.
  - intros pre ev post E. destruct pre; discriminate.
  - intros a b Ha Hb pre ev post E.
    destruct (app_eq_app _ _ _ _ E) as [l [[E1 E2] | [E1 E2]]].
    + destruct l as [| ev' l].
      * rewrite app_nil_r in E1. cbn in E2. subst.
        rewrite <- (app_nil_r pre). apply Sup_mono. apply (Hb [] ev post eq_refl).
      * cbn in E2. inversion E2; subst. apply (Ha pre ev' l eq_refl).
    + subst pre. apply Sup_mono. apply (Hb l ev post E2).
Qed.

End Supported.

Lemma listing_mono (ois : bool) (a pre : list event) (ev : event) :
  listing ois pre ev -> listing ois (a ++ pre) ev.
Proof.
  destruct ev; cbn; auto.
  intros [Hf (vs & Hin & Hv)]. split; [exact Hf |].
  exists vs. split; [apply in_or_app; right; exact Hin | exact Hv].
Qed.

#[export] Instance listed_closed (ois : bool) : AppClosed (supported (listing ois)).
Proof.
  apply supported_closed. apply listing_mono.
Qed.

Lemma supported_single (ois : bool) (ev : event) :
  (forall n v u o r, ev <> CreateEntity n v u o r) ->
  supported (listing ois) [ev].
Proof.
  intros H pre ev' post E.
  destruct pre as [| x pre]; [| destruct pre; discriminate].
  inversion E; subst. destruct ev'; cbn; auto. exfalso. eapply H. reflexivity.
Qed.

Section Listed.

Context {W : Type} (C : Collab W) (g : Globals).
Variables (mp : yaml) (ois : bool) (idx : Source) (name : string).

(** The creates of the version loop over [versions]. *)
Let from (versions : list string) (ev : event) : Prop :=
  match ev with
  | CreateEntity n v u o _ => n = name /\ u = url idx /\ o = ois /\ In v versions
  | _ => True
  end.

Lemma check_version_from (versions : list string) (version : string) :
  In version versions ->
  keeps (grows (Forall (from versions))) (check_version C g mp ois idx name version).
Proof.
  intro Hin. unfold check_version, notify, release_notification.
  walk_with ltac:(first
    [ apply keeps_notify_triggers; [preorder | intros ? ?];
      unfold notify_trigger, deliver
    | apply grows_emit; first [typeclasses eauto | repeat constructor]
    | apply grows_extern;
      first [ typeclasses eauto
            | intros ?; constructor; [cbn; auto | constructor] ]
    | apply grows_update_registry; typeclasses eauto ]).
Qed.

Lemma listed_block (versions : list string) (evs : list event) :
  Forall (from versions) evs ->
  supported (listing ois)
            (GetPackageVersions (url idx) name (Ok versions) :: evs).
Proof.
  intros H pre ev post E.
  destruct pre as [| x pre]; cbn in E; inversion E; subst; [exact I |].
  rewrite Forall_forall in H.
  assert (Hin : In ev (pre ++ ev :: post)) by (apply in_or_app; right; left; reflexivity).
  specialize (H _ Hin). destruct ev; cbn in *; auto.
  destruct H as (-> & -> & -> & Hv). split; [reflexivity |].
  exists versions. split; [left; reflexivity | exact Hv].
Qed.

Lemma check_package_listed :
  keeps (grows (supported (listing ois))) (check_package C g mp ois idx name).
Proof.
  intro s. unfold check_package. unfold bind at 1. unfold try_except, bind, extern.
  destruct (get_package_versions C idx name (world s)) as [[versions | e] w'].
  - cbn [ret fst snd].
    set (s1 := mkState w' (registry s) (debug_enabled s) _).
    assert (Hk : keeps (grows (Forall (from versions)))
                   (foreach versions (check_version C g mp ois idx name))).
    { apply keeps_foreach_in; [preorder |]. intros v Hv.
      apply check_version_from. exact Hv. }
    destruct (Hk s1) as (evs & T & F).
    exists (GetPackageVersions (url idx) name (Ok versions) :: evs).
    split; [| apply listed_block; exact F].
    rewrite T. subst s1. cbn [trace]. rewrite <- app_assoc. reflexivity.
  - destruct (is_Exception e).
    + assert (Hq : supported (listing ois)
                     ([GetPackageVersions (url idx) name (Raise e)] ++
                      [skip_record idx name e])).
      { apply closed_app; apply supported_single; intros; try discriminate.
        destruct e; discriminate. }
      exists ([GetPackageVersions (url idx) name (Raise e)] ++ [skip_record idx name e]).
      split; [| exact Hq]. destruct e; cbn; rewrite <- app_assoc; reflexivity.
    + cbn. eexists [_]. split; [reflexivity |].
      apply supported_single. intros; discriminate.
Qed.

End Listed.

(** X5.  Whatever a pass asks the store to create was listed first: each
    create comes after a version listing, for the same package on the same
    index, that returned the version; and every create carries the
    only-if-package-seen flag the pass was called with. *)
Theorem creates_follow_a_version_listing :
  forall (W : Type) (C : Collab W) (g : Globals) (mp : yaml)
         (names : option (list string)) (ois : bool) (s : state W),
    let s' := snd (package_releases_update C g mp names ois s) in
    exists evs,
      trace s' = trace s ++ evs /\
      forall pre name version index_url flag res post,
        evs = pre ++ CreateEntity name version index_url flag res :: post ->
        flag = ois /\
        exists versions,
          In (GetPackageVersions index_url name (Ok versions)) pre /\
          In version versions.
Proof.
  intros W C g mp names ois s s'.
  assert (H : keeps (grows (supported (listing ois)))
                    (package_releases_update C g mp names ois)).
  { unfold package_releases_update, check_index, candidates.
    walk_with ltac:(first
      [ apply check_package_listed
      | apply grows_emit;
        first [ typeclasses eauto
              | apply supported_single; intros; discriminate ]
      | apply grows_extern;
        first [ typeclasses eauto
              | intros ?; apply supported_single; intros; discriminate ] ]). }
  destruct (H s) as (evs & T & Hs). exists evs. split; [exact T |].
  intros pre name version index_url flag res post E. exact (Hs _ _ _ E).
Qed.

(** ** A pass over an explicit list of names *)

Section Within.

Context {W : Type} (C : Collab W) (g : Globals).
Variables (mp : yaml) (ois : bool) (names : list string).

Lemma check_package_within (idx : Source) (name : string) :
  In name names ->
  keeps (grows (Forall (within names))) (check_package C g mp ois idx name).
Proof.
  intro Hin. unfold check_package, check_version, notify, release_notification.
  walk_with ltac:(first
    [ apply keeps_notify_triggers; [preorder | intros ? ?];
      unfold notify_trigger, deliver
    | apply grows_emit; first [typeclasses eauto | repeat constructor]
    | apply grows_extern;
      first [ typeclasses eauto
            | intros ?; constructor; [cbn; auto | constructor] ]
    | apply grows_update_registry; typeclasses eauto ]).
Qed.

End Within.

(** X6.  When a pass is given a non-empty list of package names, it asks
    no index for its catalogue, and lists versions and creates entities
    for packages of that list only, on every index. *)
Theorem explicit_names_bound_the_pass :
  forall (W : Type) (C : Collab W) (g : Globals) (mp : yaml)
         (n : string) (l : list string) (ois : bool) (s : state W),
    let s' := snd (package_releases_update C g mp (Some (n :: l)) ois s) in
    exists evs,
      trace s' = trace s ++ evs /\
      Forall (fun ev =>
                match ev with
                | GetPackages _ => False
                | GetPackageVersions _ name _ => In name (n :: l)
                | CreateEntity name _ _ _ _ => In name (n :: l)
                | _ => True
                end) evs.
Proof.
  intros W C g mp n l ois s s'.
  assert (H : keeps (grows (Forall (within (n :: l))))
                    (package_releases_update C g mp (Some (n :: l)) ois)).
  { unfold package_releases_update.
    apply keeps_bind; [preorder | each_leaf | intro sources].
    apply keeps_foreach; [preorder | intro idx].
    unfold check_index.
    apply keeps_bind; [preorder | each_leaf | intros _].
    intro s0.
    change (grows (Forall (within (n :: l))) s0
              (snd (foreach (n :: l) (check_package C g mp ois idx) s0))).
    apply keeps_foreach_in; [preorder |]. intros name Hin.
    apply check_package_within. exact Hin. }
  exact (H s).
Qed.


(** ** A store create that raises *)

Section Halted.

Context {W : Type}.

Lemma halted_ok {A : Type} (a : A) (evs : list event) :
  halted (Ok a) evs -> clean evs.
Proof.
  intros [H | (pre & n & v & u & o & e & _ & _ & H)]; [exact H | discriminate].
Qed.

Lemma halted_after {A : Type} (r : result A) (evs1 evs2 : list event) :
  clean evs1 -> halted r evs2 -> halted r (evs1 ++ evs2).
Proof.
  intros H1 [H2 | (pre & n & v & u & o & e & -> & Hp & ->)].
  - left. apply Forall_app. auto.
  - right. exists (evs1 ++ pre), n, v, u, o, e. rewrite app_assoc.
    repeat split; auto. apply Forall_app. auto.
Qed.

Lemma halted_raise {A B : Type} (e : exn) (evs : list event) :
  halted (A:=A) (Raise e) evs -> halted (A:=B) (Raise e) evs.
Proof.
  intros [H | (pre & n & v & u & o & e' & E & Hp & He)]; [left; exact H |].
  right. exists pre, n, v, u, o, e'. inversion He; subst. auto.
Qed.

Lemma yields_halted_bind {A B : Type} (m : M W A) (k : A -> M W B) :
  yields halted m -> (forall a, yields halted (k a)) -> yields halted (bind m k).
Proof.
  intros Hm Hk. eapply yields_bind; [exact Hm | exact Hk | |].
  - intros e evs. apply halted_raise.
  - intros a evs1 r evs2 H1 H2. apply halted_after; [eapply halted_ok; eauto | exact H2].
Qed.

Lemma yields_halted_clean {A : Type} (m : M W A) :
  keeps (grows clean) m -> yields halted m.
Proof.
  intros H s. destruct (H s) as (evs & T & Hc). exists evs. split; [exact T |].
  left. exact Hc.
Qed.

Lemma yields_halted_foreach {A : Type} (l : list A) (body : A -> M W unit) :
  (forall x, yields halted (body x)) -> yields halted (foreach l body).
Proof.
  intro Hb. induction l as [| x l IH]; simpl.
  - apply yields_lift. left. constructor.
  - apply yields_halted_bind; auto.
Qed.

End Halted.

Section Aborts.

Context {W : Type} (C : Collab W) (g : Globals).

Lemma check_version_halted (mp : yaml) (ois : bool) (idx : Source)
    (name version : string) :
  yields halted (check_version C g mp ois idx name version).
Proof.
  unfold check_version. apply yields_halted_bind.
  - apply yields_extern. intros [added | e].
    + left. repeat constructor.
    + right. exists [], name, version, (url idx), ois, e.
      repeat split. constructor.
  - intro added. apply yields_halted_clean.
    unfold clean, notify, release_notification.
    walk_with ltac:(first
      [ apply keeps_notify_triggers; [preorder | intros ? ?];
        unfold notify_trigger, deliver
      | each_leaf ]).
Qed.

Lemma engine_halted (mp : yaml) (names : option (list string)) (ois : bool) :
  yields halted (package_releases_update C g mp names ois).
Proof.
  unfold package_releases_update. apply yields_halted_bind.
  { apply yields_halted_clean. unfold clean. each_leaf. }
  intro sources. apply yields_halted_foreach. intro idx.
  unfold check_index. apply yields_halted_bind.
  { apply yields_halted_clean. unfold clean. each_leaf. }
  intros _. apply yields_halted_bind.
  { apply yields_halted_clean. unfold clean, candidates. walk_with each_leaf. }
  intro names'. apply yields_halted_foreach. intro name.
  unfold check_package. apply yields_halted_bind.
  { apply yields_halted_clean. unfold clean. walk_with each_leaf. }
  intros [versions |].
  - apply yields_halted_foreach. intro version. apply check_version_halted.
  - apply yields_lift. left. constructor.
Qed.

End Aborts.

(** X7.  A store create is not guarded: when one raises, whatever it
    raises, the pass ends there.  The failing create is the last record
    of the pass, no later version, package or index is looked at, and the
    pass raises what the create raised. *)
Theorem failing_create_ends_the_pass :
  forall (W : Type) (C : Collab W) (g : Globals) (mp : yaml)
         (names : option (list string)) (ois : bool) (s : state W),
    let out := package_releases_update C g mp names ois s in
    exists evs,
      trace (snd out) = trace s ++ evs /\
      forall pre name version index_url flag e post,
        evs = pre ++ CreateEntity name version index_url flag (Raise e) :: post ->
        post = [] /\ fst out = Raise e.
Proof.
  intros W C g mp names ois s out.
  destruct (engine_halted C g mp names ois s) as (evs & T & H).
  exists evs. split; [exact T |].
  intros pre name version index_url flag e post E.
  destruct H as [H | (pre' & n & v & u & o & e' & E' & Hp & Hr)].
  - exfalso. unfold clean in H. rewrite Forall_forall in H.
    assert (Hin : In (CreateEntity name version index_url flag (Raise e)) evs).
    { rewrite E. apply in_or_app. right. left. reflexivity. }
    specialize (H _ Hin). discriminate.
  - rewrite E' in E.
    destruct (app_eq_app _ _ _ _ E) as [l [[E1 E2] | [E1 E2]]].
    + destruct l as [| x l].
      * cbn in E2. inversion E2; subst. split; [reflexivity | assumption].
      * exfalso. cbn in E2. inversion E2; subst.
        unfold clean in Hp. rewrite Forall_forall in Hp.
        assert (Hin : In (CreateEntity name version index_url flag (Raise e))
                         (pre ++ CreateEntity name version index_url flag (Raise e) :: l)).
        { apply in_or_app. right. left. reflexivity. }
        specialize (Hp _ Hin). discriminate.
    + destruct l as [| x l].
      * cbn in E2. inversion E2; subst. split; [reflexivity | assumption].
      * exfalso. cbn in E2. inversion E2. destruct l; discriminate.
Qed.

(** ** The names file *)

Lemma map_YStr_inj (l1 l2 : list string) : map YStr l1 = map YStr l2 -> l1 = l2.
Proof.
  revert l2. induction l1 as [| a l1 IH]; intros [| b l2] H; try discriminate.
  - reflexivity.
  - inversion H; subst. f_equal. apply IH. assumption.
Qed.

Lemma collect_entries_strings (entries : list yaml) :
  forall acc names,
    collect_entries entries acc = Ok names <->
    exists l, entries = map YStr l /\ names = acc ++ l.
Proof.
  induction entries as [| entry rest IH]; intros acc names; cbn [collect_entries].
  - split.
    + intro H. inversion H; subst. exists []. rewrite app_nil_r. auto.
    + intros (l & El & ->). destruct l; [| discriminate]. rewrite app_nil_r. reflexivity.
  - destruct entry as [| b | z | e | ys | m];
      try (split; [discriminate | intros ([| x l] & El & _); discriminate]).
    rewrite IH. split.
    + intros (l & -> & ->). exists (e :: l). rewrite <- app_assoc. auto.
    + intros ([| x l] & El & ->); [discriminate |].
      inversion El; subst. exists l. rewrite <- app_assoc. auto.
Qed.

Lemma collect_items_entries (items : list yaml) :
  forall acc names,
    collect_items items acc = Ok names <->
    exists ls,
      Forall2 (fun item l => py_iter item = Ok (map YStr l)) items ls /\
      names = acc ++ concat ls.
Proof.
  induction items as [| item rest IH]; intros acc names; cbn [collect_items].
  - split.
    + intro H. inversion H; subst. exists []. cbn. rewrite app_nil_r. auto.
    + intros (ls & F & ->). inversion F; subst. cbn. rewrite app_nil_r. reflexivity.
  - destruct (py_iter item) as [entries | e] eqn:Ei.
    + destruct (collect_entries entries acc) as [acc' | e] eqn:Ec.
      * apply collect_entries_strings in Ec. destruct Ec as (l & -> & ->).
        rewrite IH. split.
        -- intros (ls & F & ->). exists (l :: ls). cbn. rewrite app_assoc.
           split; [constructor; auto | reflexivity].
        -- intros (ls & F & ->). inversion F as [| x l' xs ls' Hx Hf]; subst.
           rewrite Ei in Hx. inversion Hx as [Hm].
           apply map_YStr_inj in Hm. subst l'. exists ls'. cbn. rewrite app_assoc. auto.
      * split; [discriminate |].
        intros (ls & F & _). inversion F as [| x l xs ls' Hx Hf]; subst.
        rewrite Ei in Hx. inversion Hx; subst.
        assert (Hc : collect_entries (map YStr l) acc = Ok (acc ++ l)).
        { apply collect_entries_strings. exists l. auto. }
        congruence.
    + split; [discriminate |].
      intros (ls & F & _). inversion F as [| x l xs ls' Hx Hf]; subst.
      rewrite Ei in Hx. discriminate.
Qed.

(** X8.  The package names taken from the names file are the entries of
    the matches of the expression, match after match and in the order of
    the document: the collection succeeds exactly when every match can be
    iterated and yields strings only, and then returns all of them; it
    drops none, adds none and removes no duplicate. *)
Theorem names_are_the_entries_in_order :
  forall (items : list yaml) (names : list string),
    collect_items items [] = Ok names <->
    exists ls,
      Forall2 (fun item l => py_iter item = Ok (map YStr l)) items ls /\
      names = concat ls.
Proof.
  intros items names. apply (collect_items_entries items [] names).
Qed.

(** X9.  A match whose value is itself a string is iterated letter by
    letter: each of its characters becomes a package name of its own. *)
Theorem string_match_is_read_by_letter :
  forall (s : string) (items : list yaml) (acc : list string),
    collect_items (YStr s :: items) acc = collect_items items (acc ++ chars s).
Proof.
  intros s items acc. cbn [collect_items py_iter].
  assert (H : collect_entries (map YStr (chars s)) acc = Ok (acc ++ chars s)).
  { apply collect_entries_strings. exists (chars s). auto. }
  rewrite H. reflexivity.
Qed.

(** ** A run that fails before the pass *)

Lemma prepare_startup_events {W : Type} (C : Collab W) (a : Args) :
  keeps (grows (Forall (fun ev => startup_event ev = true))) (prepare C a).
Proof.
  unfold prepare, read_package_names, _load_package_monitoring_config.
  walk_with each_leaf.
Qed.

(** X10.  Whatever [cli] raises before the pass (a rejected combination
    of arguments, an unreadable names file, a failed connection to the
    store, a monitoring configuration that cannot be loaded) ends the run
    with that exception: no index is asked, nothing is created or
    notified, and the metrics are not pushed, since the [finally] block
    only guards the pass. *)
Theorem startup_failure_skips_pass_and_push :
  forall (W : Type) (C : Collab W) (g : Globals) (a : Args) (s : state W) (e : exn),
    fst (prepare C a s) = Raise e ->
    let out := cli C g a s in
    fst out = Raise e /\
    exists evs,
      trace (snd out) = trace s ++ evs /\
      Forall (fun ev => startup_event ev = true) evs.
Proof.
  intros W C g a s e H out. subst out. unfold cli, bind.
  destruct (prepare_startup_events C a s) as (evs & T & F).
  destruct (prepare C a s) as [r s1]. cbn [fst snd] in *. subst r.
  cbn [fst snd]. split; [reflexivity |]. exists evs. auto.
Qed.

(** ** The order of the indices *)

Lemma checked_app (a b : list event) : checked (a ++ b) = checked a ++ checked b.
Proof.
  induction a as [| ev a IH]; [reflexivity |].
  destruct ev as [[] [] | | | | | | | | | |]; cbn; rewrite ?IH; reflexivity.
Qed.

Lemma checked_none (evs : list event) :
  Forall (fun ev => is_checking ev = false) evs -> checked evs = [].
Proof.
  induction 1 as [| ev evs H _ IH]; [reflexivity |].
  destruct ev as [[] [] | | | | | | | | | |]; cbn in *; auto; discriminate.
Qed.

Section Order.

Context {W : Type} (C : Collab W) (g : Globals).
Variables (mp : yaml) (names : option (list string)) (ois : bool).

Lemma check_index_checked (idx : Source) :
  yields (fun _ evs => checked evs = [url idx]) (check_index C g mp names ois idx).
Proof.
  unfold check_index. apply yields_log_then.
  assert (H : keeps (grows (Forall (fun ev => is_checking ev = false)))
                (names' <- candidates C names idx ;;
                 foreach names' (check_package C g mp ois idx))).
  { unfold candidates, check_package, check_version, notify, release_notification.
    walk_with ltac:(first
      [ apply keeps_notify_triggers; [preorder | intros ? ?];
        unfold notify_trigger, deliver
      | each_leaf ]). }
  intro s. destruct (H s) as (evs & T & F). exists evs. split; [exact T |].
  cbn. rewrite (checked_none evs F). reflexivity.
Qed.

Lemma foreach_index_checked (sources : list Source) :
  yields (fun r evs =>
            (exists rest, map url sources = checked evs ++ rest) /\
            (r = Ok tt -> checked evs = map url sources))
         (foreach sources (check_index C g mp names ois)).
Proof.
  induction sources as [| idx l IH]; cbn [foreach map].
  - apply yields_lift. split; [exists []; reflexivity | reflexivity].
  - eapply yields_bind.
    + apply check_index_checked.
    + intros u. apply IH.
    + cbn beta. intros e evs He. rewrite He.
      split; [exists (map url l); reflexivity | discriminate].
    + cbn beta. intros _ evs1 r evs2 He [[rest Hr] Ho]. rewrite checked_app, He.
      split.
      * exists rest. cbn. rewrite Hr. reflexivity.
      * intro H. cbn. rewrite (Ho H). reflexivity.
Qed.

End Order.

(** X11.  A pass checks the enabled indices in the order the store lists
    them, each once: at any outcome the indices checked so far are a
    prefix of that list, and when the pass returns they are the whole
    list. *)
Theorem indices_are_checked_in_order :
  forall (W : Type) (C : Collab W) (g : Globals) (mp : yaml)
         (names : option (list string)) (ois : bool) (s : state W)
         (sources : list Source),
    fst (get_python_package_index_all C (world s)) = Ok sources ->
    let out := package_releases_update C g mp names ois s in
    exists evs,
      trace (snd out) = trace s ++ evs /\
      (exists rest, map url sources = checked evs ++ rest) /\
      (fst out = Ok tt -> checked evs = map url sources).
Proof.
  intros W C g mp names ois s sources H out. subst out.
  unfold package_releases_update, bind.
  pose proof (extern_fst (get_python_package_index_all C) (fun _ => IndexAll) s) as Ef.
  rewrite H in Ef.
  assert (Et : trace (snd (extern (get_python_package_index_all C) (fun _ => IndexAll) s))
               = trace s ++ [IndexAll]).
  { unfold extern. destruct (get_python_package_index_all C (world s)); reflexivity. }
  destruct (extern (get_python_package_index_all C) (fun _ => IndexAll) s) as [r0 s1].
  cbn [fst snd] in Ef, Et. rewrite Ef.
  destruct (foreach_index_checked C g mp names ois sources s1) as (evs & T & Hp & Ho).
  exists (IndexAll :: evs). rewrite T, Et, <- app_assoc. cbn. auto.
Qed.

(** ** An environment that clashes with the placeholders *)

Lemma yields_bind_raises {W A B : Type} (Q1 : result A -> list event -> Prop)
    (Q : result B -> list event -> Prop) (m : M W A) (k : A -> M W B) :
  yields Q1 m ->
  (forall a evs, ~ Q1 (Ok a) evs) ->
  (forall e evs, Q1 (Raise e) evs -> Q (Raise e) evs) ->
  yields Q (bind m k).
Proof.
  intros Hm Hn Hr s. unfold bind. destruct (Hm s) as (evs & T & H).
  destruct (m s) as [[a | e] s1]; cbn [fst snd] in *.
  - exfalso. eapply Hn. exact H.
  - exists evs. auto.
Qed.

Section Clash.

Context {W : Type} (C : Collab W) (g : Globals).
Variables (name version index_url : string).
Variable k : string.
Hypothesis reserved : In k reserved_names.
Hypothesis clash : has_key (environ g) k = true.

Lemma expand_url_clash (template : string) :
  exists e, expand_url C g template name version index_url = Raise e /\
            is_Exception e = true.
Proof.
  unfold expand_url.
  assert (H : existsb (fun kv => has_key (environ g) (fst kv))
                      (notification_data g name version index_url) = true).
  { unfold notification_data. cbn [existsb fst].
    destruct reserved as [<- | [<- | [<- | [<- | []]]]]; rewrite clash;
      rewrite ?orb_true_r; reflexivity. }
  rewrite H. eexists. split; reflexivity.
Qed.

Lemma yields_deliver_clash (trigger : yaml) :
  yields (fun r evs => evs = [] /\ exists e, r = Raise e /\ is_Exception e = true)
         (deliver C g trigger name version index_url).
Proof.
  unfold deliver. apply yields_lift_bind.
  destruct (py_getitem trigger "url") as [trigger_url | e] eqn:Eu.
  2:{ split; [reflexivity |]. exists e. split; [reflexivity |].
      destruct trigger as [| b | z | s0 | l | m]; cbn in Eu;
        try (inversion Eu; reflexivity).
      destruct (dict_lookup m "url"); inversion Eu; reflexivity. }
  apply yields_lift_bind.
  destruct (py_startswith trigger_url "https://") as [https | e] eqn:Es.
  2:{ split; [reflexivity |]. exists e. split; [reflexivity |].
      destruct trigger_url; cbn in Es; inversion Es; reflexivity. }
  destruct trigger_url as [| b | z | template | l | m]; try discriminate.
  destruct (expand_url_clash template) as (e & Ee & He).
  assert (Hrest : forall kwargs : option yaml,
             yields (fun r evs => evs = [] /\
                                  exists e, r = Raise e /\ is_Exception e = true)
               (target <- lift (W:=W) (expand_url C g template name version index_url) ;;
                let data := notification_data g name version index_url in
                status <- extern (requests_post C target data kwargs)
                                 (HttpPost target data kwargs) ;;
                lift (raise_for_status status))).
  { intro kwargs. apply yields_lift_bind. rewrite Ee. eauto. }
  destruct https.
  - unfold bind at 1.
    destruct (py_get trigger "tls_verify" (YBool true)) as [v | e'] eqn:Eg.
    + intro s. apply (Hrest (Some v) s).
    + intro s. exists []. cbn. rewrite app_nil_r. split; [reflexivity |].
      split; [reflexivity |]. exists e'. split; [reflexivity |].
      destruct trigger; cbn in Eg; inversion Eg; reflexivity.
  - intro s. apply (Hrest None s).
Qed.

Lemma yields_notify_triggers_clash (triggers : list yaml) :
  forall b0,
    yields (fun r evs => Forall (fun ev => is_post ev = false) evs /\ r = Ok b0)
           (notify_triggers C g name version index_url b0 triggers).
Proof.
  induction triggers as [| t l IH]; intro b0; cbn [notify_triggers].
  - apply yields_lift. split; [constructor | reflexivity].
  - apply yields_bind
      with (Q1 := fun r evs => Forall (fun ev => is_post ev = false) evs /\ r = Ok b0)
           (Q2 := fun b1 r evs =>
                    Forall (fun ev => is_post ev = false) evs /\ r = Ok b1).
    + unfold notify_trigger. apply yields_log_then.
      apply yields_try_except
        with (Q1 := fun r evs =>
                      evs = [] /\ exists e, r = Raise e /\ is_Exception e = true)
             (Q2 := fun _ r evs =>
                      Forall (fun ev => is_post ev = false) evs /\ r = Ok b0).
      * eapply yields_bind_raises.
        -- apply yields_deliver_clash.
        -- cbn beta. intros a evs [_ (e & He & _)]. discriminate.
        -- cbn beta. intros e evs [E (e' & He' & Hx)]. inversion He'; subst.
           split; [reflexivity | eauto].
      * intro e. apply yields_log_then. apply yields_lift.
        split; [repeat constructor | reflexivity].
      * intros a evs [_ (e & He & _)]. discriminate.
      * intros e evs He [_ (e' & He' & Hx)]. inversion He'; subst. congruence.
      * intros e evs1 r evs2 _ [-> _] [H2 ->]. cbn.
        split; [constructor; [reflexivity | exact H2] | reflexivity].
    + intro b1. apply IH.
    + intros e evs [_ H]. discriminate.
    + intros b1 evs1 r evs2 [H1 E1] [H2 ->]. inversion E1; subst.
      split; [apply Forall_app; auto | reflexivity].
Qed.

End Clash.

(** X12.  The placeholders [package_name], [package_version], [index_url]
    and [thoth_deployment_name] are passed to [format] next to the whole
    process environment.  When the environment itself defines a variable
    of one of these names, no URL can be expanded: [release_notification]
    makes no POST for any trigger and returns [False]. *)
Theorem clashing_environment_blocks_delivery :
  forall (W : Type) (C : Collab W) (g : Globals) (k : string) (mp : yaml)
         (name version index_url : string) (s : state W),
    In k reserved_names ->
    has_key (environ g) k = true ->
    let out := release_notification C g mp name version index_url s in
    (forall b, fst out = Ok b -> b = false) /\
    exists evs, trace (snd out) = trace s ++ evs /\ count is_post evs = 0.
Proof.
  intros W C g k mp name version index_url s Hk Hc out. subst out.
  unfold release_notification.
  destruct (triggers_of mp name) as [triggers | e].
  - destruct (yields_notify_triggers_clash C g name version index_url k Hk Hc
                triggers false s) as (evs & T & F & R).
    split.
    + intros b Hb. cbn in Hb. unfold bind, lift in Hb. cbn in R.
      change (fst (notify_triggers C g name version index_url false triggers s) = Ok b)
        in Hb.
      congruence.
    + exists evs. split; [exact T | apply count_none; exact F].
  - split; [intros b Hb; discriminate |].
    exists []. cbn. rewrite app_nil_r. auto.
Qed.

(** ** The "notified" gauge *)

#[export] Instance anything_closed : AppClosed (fun _ : list event => True).
Proof.
  split; auto.
Qed.

Section Tallied.

Context {W : Type}.

#[export] Instance tallied_preorder : PreOrder (tallied (W:=W)).
Proof.
  split.
  - intro s. exists []. rewrite app_nil_r. cbn. repeat split; lia.
  - intros s0 s1 s2 (e1 & T1 & L1 & U1) (e2 & T2 & L2 & U2). exists (e1 ++ e2).
    rewrite T2, T1, app_assoc, count_app. repeat split; lia.
Qed.

Lemma tallied_of_fixed {A : Type} (m : M W A) :
  keeps (fixes packages_notified) m ->
  keeps (grows (fun _ => True)) m ->
  keeps tallied m.
Proof.
  intros Hf Hg s. destruct (Hg s) as (evs & T & _). specialize (Hf s).
  unfold fixes in Hf. exists evs. rewrite Hf. repeat split; auto; lia.
Qed.

End Tallied.

Ltac tallied_leaf := apply tallied_of_fixed; [fixes_leaf | each_leaf].

Section Tally.

Context {W : Type} (C : Collab W) (g : Globals).

Lemma release_notification_fixes (mp : yaml) (name version index_url : string) :
  keeps (fixes packages_notified) (release_notification C g mp name version index_url).
Proof.
  unfold release_notification.
  walk_with ltac:(first
    [ apply keeps_notify_triggers; [preorder | intros ? ?];
      unfold notify_trigger, deliver
    | fixes_leaf ]).
Qed.

Lemma release_notification_grows (mp : yaml) (name version index_url : string) :
  keeps (grows (fun _ => True)) (release_notification C g mp name version index_url).
Proof.
  unfold release_notification.
  walk_with ltac:(first
    [ apply keeps_notify_triggers; [preorder | intros ? ?];
      unfold notify_trigger, deliver
    | each_leaf ]).
Qed.

(** The block under [if added and monitored_packages:] moves the gauge by
    one at most, and leaves no create record. *)
Lemma notify_tally (mp : yaml) (idx : Source) (name version : string)
    (added : Entity * bool) (s : state W) :
  let s' := snd (notify C g mp idx name version added s) in
  exists evs,
    trace s' = trace s ++ evs /\
    packages_notified (registry s) <= packages_notified (registry s') /\
    packages_notified (registry s') <= packages_notified (registry s) + 1.
Proof.
  unfold notify.
  destruct (tuple_truthy added && truthy mp).
  2:{ exists []. cbn. rewrite app_nil_r. repeat split; lia. }
  unfold try_except, bind.
  pose proof (release_notification_fixes mp (package_name (fst added))
                (package_version (fst added)) (url idx) s) as Hf.
  destruct (release_notification_grows mp (package_name (fst added))
              (package_version (fst added)) (url idx) s) as (evs & T & _).
  unfold fixes in Hf.
  destruct (release_notification C g mp (package_name (fst added))
              (package_version (fst added)) (url idx) s) as [[b | e] s1];
    cbn [fst snd] in *.
  - exists evs. cbn. rewrite Hf. repeat split; auto; lia.
  - destruct (is_Exception e); cbn.
    + exists (evs ++ [Log ERROR (MsgNotificationFailed name version (url idx) e)]).
      rewrite T, Hf, app_assoc. repeat split; lia.
    + exists evs. rewrite Hf. repeat split; auto; lia.
Qed.

Lemma check_version_tallied (mp : yaml) (ois : bool) (idx : Source)
    (name version : string) :
  keeps tallied (check_version C g mp ois idx name version).
Proof.
  intro s. unfold check_version. unfold bind at 1. unfold extern.
  destruct (create_python_package_version_entity C name version (url idx) ois (world s))
    as [[[added |] | e] w'].
  - cbv beta iota zeta.
    set (s1 := mkState w' (registry s) (debug_enabled s) _).
    set (block := if negb (snd added)
                  then log (W:=W) INFO (MsgNewRelease name version (url idx)) ;; inc_added
                  else log DEBUG (MsgAlreadyPresent name version (url idx))).
    assert (Hb : keeps tallied block).
    { unfold block. walk_with tallied_leaf. }
    assert (Hf : keeps (fixes packages_notified) block).
    { unfold block. walk_with fixes_leaf. }
    specialize (Hf s1). destruct (Hb s1) as (logs & T2 & _ & _). unfold fixes in Hf.
    unfold bind at 1.
    destruct (block s1) as [[u | e] s2]; cbn [fst snd] in *.
    + destruct (notify_tally mp idx name version added s2) as (evs & T3 & L & U).
      exists (CreateEntity name version (url idx) ois (Ok (Some added)) :: logs ++ evs).
      rewrite count_cons. cbn [returned_entity]. rewrite Hf in L, U. subst s1.
      cbn [trace registry] in *. rewrite T3, T2, <- !app_assoc.
      split; [reflexivity | split; lia].
    + exists (CreateEntity name version (url idx) ois (Ok (Some added)) :: logs).
      rewrite count_cons. cbn [returned_entity]. subst s1.
      cbn [trace registry] in *. rewrite T2, Hf, <- !app_assoc.
      split; [reflexivity | split; lia].
  - cbn. eexists [_; _]. rewrite <- app_assoc.
    split; [reflexivity | cbn [registry]; split; lia].
  - cbn. eexists [_]. split; [reflexivity | cbn [registry]; split; lia].
Qed.

End Tally.

(** X14.  Over a pass the "notified" gauge never goes down, and it goes
    up by at most one for each store create that returned an entity: a
    create that answered with the sentinel or raised is never counted as
    notified. *)
Theorem notified_is_bounded_by_entities :
  forall (W : Type) (C : Collab W) (g : Globals) (mp : yaml)
         (names : option (list string)) (ois : bool) (s : state W),
    let s' := snd (package_releases_update C g mp names ois s) in
    exists evs,
      trace s' = trace s ++ evs /\
      packages_notified (registry s) <= packages_notified (registry s') /\
      packages_notified (registry s') <=
        packages_notified (registry s) + count returned_entity evs.
Proof.
  intros W C g mp names ois s s'.
  assert (H : keeps tallied (package_releases_update C g mp names ois)).
  { unfold package_releases_update, check_index, candidates, check_package.
    walk_with ltac:(first [ apply check_version_tallied | tallied_leaf ]). }
  exact (H s).
Qed.

(** ** What can end a pass *)

Section Spares.

Context {W : Type}.

Lemma spares_lift {A : Type} (r : result A) : harmless r -> spares (lift (W:=W) r).
Proof. intros H s. exact H. Qed.

Lemma spares_emit (ev : event) : spares (emit (W:=W) ev).
Proof. intro s. exact I. Qed.

Lemma spares_update_registry (f : Registry -> Registry) :
  spares (update_registry (W:=W) f).
Proof. intro s. exact I. Qed.

Lemma spares_extern {A : Type} (op : W -> result A * W) (ev : result A -> event) :
  (forall w, harmless (fst (op w))) -> spares (extern op ev).
Proof.
  intros H s. rewrite extern_fst. apply H.
Qed.

Lemma spares_bind {A B : Type} (m : M W A) (k : A -> M W B) :
  spares m -> (forall a, spares (k a)) -> spares (bind m k).
Proof.
  intros Hm Hk s. unfold bind. specialize (Hm s).
  destruct (m s) as [[a | e] s1]; cbn [fst] in *; [apply Hk | exact Hm].
Qed.

(** Whatever the guarded block does, a handler that never ends with an
    [Exception] makes the whole statement so. *)
Lemma spares_try_except {A : Type} (m : M W A) (h : exn -> M W A) :
  (forall e, spares (h e)) -> spares (try_except m h).
Proof.
  intros Hh s. unfold try_except.
  destruct (m s) as [[a | e] s1]; cbn [fst]; [exact I |].
  destruct (is_Exception e) eqn:He; [apply Hh | exact He].
Qed.

Lemma spares_foreach {A : Type} (l : list A) (body : A -> M W unit) :
  (forall x, spares (body x)) -> spares (foreach l body).
Proof.
  intro Hb. induction l as [| x l IH]; cbn [foreach].
  - intro s. exact I.
  - apply spares_bind; auto.
Qed.

End Spares.

(** X13.  Only three calls of a pass are left unguarded: the list of the
    enabled indices, the catalogue of an index and the store create.
    When none of them raises an [Exception], the pass does not end with
    one, whatever the version listings and the deliveries do and however
    the monitoring configuration is shaped. *)
Theorem only_store_and_catalogue_can_end_the_pass :
  forall (W : Type) (C : Collab W) (g : Globals) (mp : yaml)
         (names : option (list string)) (ois : bool) (s : state W),
    (forall w, harmless (fst (get_python_package_index_all C w))) ->
    (forall idx w, harmless (fst (get_packages C idx w))) ->
    (forall name version index_url w,
        harmless (fst (create_python_package_version_entity C name version index_url
                         ois w))) ->
    harmless (fst (package_releases_update C g mp names ois s)).
Proof.
  intros W C g mp names ois s Hi Hp Hc.
  assert (H : spares (package_releases_update C g mp names ois)).
  { unfold package_releases_update.
    apply spares_bind; [apply spares_extern, Hi | intro sources].
    apply spares_foreach. intro idx. unfold check_index.
    apply spares_bind; [apply spares_emit | intros _].
    apply spares_bind.
    { unfold candidates. destruct names as [[| n l] |];
        first [ apply spares_extern, Hp | intro s0; exact I ]. }
    intro names'. apply spares_foreach. intro name. unfold check_package.
    apply spares_bind.
    { apply spares_try_except. intros [msg | cls msg | code |];
        (apply spares_bind; [apply spares_emit | intros _ s0; exact I]). }
    intros [versions |]; [| intro s0; exact I].
    apply spares_foreach. intro version. unfold check_version.
    apply spares_bind; [apply spares_extern, Hc | intros [added |]];
      [| apply spares_emit].
    apply spares_bind.
    { destruct (negb (snd added));
        [apply spares_bind; [apply spares_emit | intros _; apply spares_update_registry]
        | apply spares_emit]. }
    intros _. unfold notify.
    destruct (tuple_truthy added && truthy mp); [| intro s0; exact I].
    apply spares_try_except. intro e. apply spares_emit. }
  exact (H s).
Qed.

(** X15.  A pass talks to the indices, the store and the hooks, and logs:
    every record it leaves is a listing, a create made with the flag of
    the pass, a POST, or one of its log records.  It reads no file,
    fetches nothing with GET, does not connect to the store and pushes no
    metrics. *)
Theorem the_pass_only_lists_creates_and_posts :
  forall (W : Type) (C : Collab W) (g : Globals) (mp : yaml)
         (names : option (list string)) (ois : bool) (s : state W),
    let s' := snd (package_releases_update C g mp names ois s) in
    exists evs,
      trace s' = trace s ++ evs /\
      Forall (fun ev =>
                match ev with
                | IndexAll | GetPackages _ | GetPackageVersions _ _ _
                | HttpPost _ _ _ _ | Log _ _ => True
                | CreateEntity _ _ _ flag _ => flag = ois
                | ReadFile _ | HttpGet _ | GraphConnect | NamesAll
                | PushToGateway _ _ _ => False
                end) evs.
Proof.
  intros W C g mp names ois s s'.
  destruct (emits_engine C g ois mp names s) as (evs & T & F & _).
  exists evs. split; [exact T |].
  eapply Forall_impl; [| exact F]. intros ev H.
  destruct ev as [lvl m | | | | | | | | n v u flag r | |]; cbn in *;
    try exact I; try discriminate.
  unfold engine_event in H. cbn in H. rewrite !orb_false_r in H.
  destruct flag, ois; cbn in H; congruence.
Qed.

(** ** A run without a monitoring configuration *)

Section Returns.

Context {W : Type}.

Lemma returns_bind {A B : Type} (Q : B -> Prop) (m : M W A) (k : A -> M W B) :
  (forall a, returns Q (k a)) -> returns Q (bind m k).
Proof.
  intros Hk s b. unfold bind. destruct (m s) as [[a | e] s1]; cbn [fst].
  - apply Hk.
  - discriminate.
Qed.

Lemma returns_raise {A : Type} (Q : A -> Prop) (e : exn) : returns Q (raise (W:=W) e).
Proof. intros s a H. discriminate. Qed.

Lemma returns_ret {A : Type} (Q : A -> Prop) (a : A) : Q a -> returns Q (ret (W:=W) a).
Proof. intros H s b E. inversion E; subst. exact H. Qed.

End Returns.

Section Unmonitored.

Context {W : Type} (C : Collab W) (g : Globals).

Lemma prepare_without_config (a : Args) :
  str_truthy (monitoring_config a) = false ->
  returns (fun p => truthy (fst p) = false) (prepare C a).
Proof.
  intro H. unfold prepare.
  repeat (apply returns_bind; intros ?).
  repeat match goal with
         | |- returns _ (if ?b then _ else _) => destruct b
         end; try apply returns_raise.
  do 3 (apply returns_bind; intros ?).
  destruct (monitoring_config a) as [path |].
  - rewrite H. intros s p E. cbn in E. inversion E. reflexivity.
  - intros s p E. cbn in E. inversion E. reflexivity.
Qed.

Lemma run_pass_without_config_posts (mp : yaml) (names : option (list string)) :
  truthy mp = false ->
  keeps (grows (Forall (fun ev => is_post ev = false))) (run_pass C g mp names).
Proof.
  intro H. unfold run_pass, timed, push_metrics.
  walk_with ltac:(first [ apply engine_without_config_posts; exact H | each_leaf ]).
Qed.

Lemma run_pass_without_config_notified (mp : yaml) (names : option (list string)) :
  truthy mp = false ->
  keeps (fixes packages_notified) (run_pass C g mp names).
Proof.
  intro H. unfold run_pass, timed, push_metrics.
  walk_with ltac:(first [ apply engine_without_config_notified; exact H
                        | fixes_leaf
                        | intro s0; unfold fixes, now;
                          destruct (default_timer C (world s0)); reflexivity ]).
Qed.

Lemma prepare_posts (a : Args) :
  keeps (grows (Forall (fun ev => is_post ev = false))) (prepare C a).
Proof.
  unfold prepare, read_package_names, _load_package_monitoring_config.
  walk_with each_leaf.
Qed.

Lemma prepare_notified (a : Args) :
  keeps (fixes packages_notified) (prepare C a).
Proof.
  unfold prepare, read_package_names, _load_package_monitoring_config.
  walk_with ltac:(first [ fixes_leaf | intro s0; reflexivity ]).
Qed.

End Unmonitored.

(** X16.  A run started without [--monitoring-config] (or with an empty
    one) never notifies: whatever the indices host and the store answers,
    the process makes no POST and ends with the "notified" gauge at
    zero. *)
Theorem run_without_monitoring_config_never_posts :
  forall (W : Type) (C : Collab W) (env : list (string * string)) (a : Args) (w : W),
    str_truthy (monitoring_config a) = false ->
    let s' := snd (main C env a (initial_state w)) in
    packages_notified (registry s') = 0 /\ count is_post (trace s') = 0.
Proof.
  intros W C env a w H s'.
  assert (Hp : keeps (grows (Forall (fun ev => is_post ev = false))) (main C env a)).
  { unfold main. apply keeps_bind; [preorder | each_leaf | intros _].
    destruct (load_module env) as [g | e]; [| apply keeps_raise; preorder].
    unfold cli.
    apply keeps_bind_ok with (Q := fun p => truthy (fst p) = false); [preorder | | |].
    - apply prepare_posts.
    - apply prepare_without_config. exact H.
    - intros p Hq. apply run_pass_without_config_posts. exact Hq. }
  assert (Hn : keeps (fixes packages_notified) (main C env a)).
  { unfold main. apply keeps_bind; [preorder | fixes_leaf | intros _].
    destruct (load_module env) as [g | e]; [| apply keeps_raise; preorder].
    unfold cli.
    apply keeps_bind_ok with (Q := fun p => truthy (fst p) = false); [preorder | | |].
    - apply prepare_notified.
    - apply prepare_without_config. exact H.
    - intros p Hq. apply run_pass_without_config_notified. exact Hq. }
  split.
  - apply (Hn (initial_state w)).
  - destruct (Hp (initial_state w)) as (evs & T & F). fold s' in T. cbn in T.
    rewrite T. apply count_none. exact F.
Qed.

(** ** The further properties at work on the concrete world *)

Section MoreWitnesses.

Import Sim.

Let C := collab catalog_A.
Let w0 := widget_world [] 200.

Lemma no_configuration_no_notification_witness :
  let s := initial_state w0 in
  let s' := snd (package_releases_update C globals (YMap []) None false s) in
  truthy (YMap []) = false /\
  packages_added (registry s') = 2 /\
  packages_notified (registry s') = packages_notified (registry s) /\
  exists evs, trace s' = trace s ++ evs /\ count is_post evs = 0.
Proof.
  intros s s'. split; [reflexivity |]. split; [reflexivity |].
  exact (no_configuration_no_notification World C globals (YMap []) None false s
           eq_refl).
Defined.

Lemma startup_failure_skips_pass_and_push_witness :
  let a := mkArgs false (Some "missing.yaml") false None None in
  let s := initial_state w0 in
  let g := mkGlobals [("THOTH_DEPLOYMENT_NAME", "test")] (Some "http://gateway") "test" in
  let out := cli C g a s in
  fst (prepare C a s) = Raise (PyException "FileNotFoundError" "missing.yaml") /\
  fst out = Raise (PyException "FileNotFoundError" "missing.yaml") /\
  exists evs,
    trace (snd out) = trace s ++ evs /\
    Forall (fun ev => startup_event ev = true) evs.
Proof.
  intros a s g out. split; [reflexivity |].
  exact (startup_failure_skips_pass_and_push World C g a s
           (PyException "FileNotFoundError" "missing.yaml") eq_refl).
Defined.

Lemma indices_are_checked_in_order_witness :
  let two := [("https://a.example/simple", [("widget", ["1.0"])]);
              ("https://b.example/simple", [("widget", ["1.0"])])] in
  let s := initial_state w0 in
  let out := package_releases_update (collab two) globals YNull None false s in
  fst out = Ok tt /\
  exists evs,
    trace (snd out) = trace s ++ evs /\
    checked evs = ["https://a.example/simple"; "https://b.example/simple"].
Proof.
  intros two s out.
  destruct (indices_are_checked_in_order World (collab two) globals YNull None false s
              [mkSource "https://a.example/simple"; mkSource "https://b.example/simple"]
              eq_refl) as (evs & T & _ & H).
  split; [reflexivity |]. exists evs. split; [exact T |]. apply H. reflexivity.
Defined.

Lemma clashing_environment_blocks_delivery_witness :
  let g := mkGlobals [("THOTH_DEPLOYMENT_NAME", "test"); ("index_url", "https://x")]
                     None "test" in
  let out := release_notification C g
               (widget_config "http://hook/{package_name}") "widget" "1.0" index_A
               (initial_state w0) in
  In "index_url" reserved_names /\
  has_key (environ g) "index_url" = true /\
  fst out = Ok false /\
  exists evs, trace (snd out) = [] ++ evs /\ count is_post evs = 0.
Proof.
  intros g out.
  assert (Hin : In "index_url" reserved_names) by (cbn; auto).
  split; [exact Hin |]. split; [reflexivity |]. split; [reflexivity |].
  exact (proj2 (clashing_environment_blocks_delivery World C g "index_url"
                  (widget_config "http://hook/{package_name}") "widget" "1.0" index_A
                  (initial_state w0) Hin eq_refl)).
Defined.

Lemma only_store_and_catalogue_can_end_the_pass_witness :
  let calm := with_catalogue C (fun _ w => (Ok ["widget"; "ghost"], w)) in
  let hook := widget_config "{missing}" in
  harmless (fst (package_releases_update calm globals hook None false
                   (initial_state w0))).
Proof.
  intros calm hook.
  apply (only_store_and_catalogue_can_end_the_pass World calm globals hook None false
           (initial_state w0)).
  - intro w. exact I.
  - intros idx w. exact I.
  - intros name version index_url w. cbn. unfold sim_create.
    destruct (holds w (name, version, index_url)); exact I.
Defined.

Lemma run_without_monitoring_config_never_posts_witness :
  let a := mkArgs false None false (Some "names.yaml") (Some "$.packages") in
  let s' := snd (main C [("THOTH_DEPLOYMENT_NAME", "test")] a (initial_state w0)) in
  packages_added (registry s') = 2 /\
  packages_notified (registry s') = 0 /\
  count is_post (trace s') = 0.
Proof.
  intros a s'. split; [reflexivity |].
  exact (run_without_monitoring_config_never_posts World C
           [("THOTH_DEPLOYMENT_NAME", "test")] a w0 eq_refl).
Defined.

End MoreWitnesses.
